(** * The accumulator helpers of osmoutils/accum

    A shallow embedding of [osmoutils/accum/accum_helpers.go]
    ([initOrUpdatePosition], [getPosition], [getTotalRewards],
    [validateAccumulatorValue]) together with the parts of the cosmos-sdk
    decimal-coin library and of the store helpers they call, followed by the
    properties of the reward engine. *)

From Stdlib Require Import ZArith Lia String List.
From stdpp Require Import gmap strings list fin_maps.
Import ListNotations.

Local Open Scope Z_scope.

(** ** Outcomes of Go code that may panic *)

Inductive result (A : Type) : Type :=
| Ok (a : A)
| Panic (msg : string).
Arguments Ok {A} a.
Arguments Panic {A} msg.

Definition bind {A B : Type} (r : result A) (k : A -> result B) : result B :=
  match r with
  | Ok a => k a
  | Panic msg => Panic msg
  end.

Notation "'let*' x ':=' r 'in' k" := (bind r (fun x => k))
  (at level 10, x name, r at level 100, k at level 200).

(** ** cosmos-sdk decimal coins *)

Module sdk.

(** Modelled from the spec: [sdk.Dec], the decimal type of the cosmos-sdk
    (types/decimal.go, a library outside this repository), which the spec
    leaves to that library.  A decimal is a fixed-point number of 18
    decimals, held as the integer number of units of 10^-18 (the [big.Int]
    inside a [Dec]): one is [10^18], a half [5 * 10^17].  Sums, negations and
    sign tests work on that integer; a product or a quotient is rounded back
    to 18 decimals and panics past [maxDecBitLen] bits.  Sums are those of
    the integers: the panic of the library on a sum past [maxDecBitLen] bits
    is not modelled, [rewardsInRange] below states the range in which none
    occurs. *)
Definition Dec : Type := Z.

(** Modelled from the spec: the library's [Precision], the number of
    decimals. *)
Definition Precision : Z := 18.

(** Modelled from the spec: the library's [precisionReuse], [10^Precision]:
    the number of units in one. *)
Definition precisionReuse : Z := 10 ^ Precision.

(** Modelled from the spec: the library's [fivePrecision], half of
    [precisionReuse]. *)
Definition fivePrecision : Z := precisionReuse / 2.

(** Modelled from the spec: the library's [maxDecBitLen], the number of bits
    a decimal may take (256 bits and 59 for the decimals). *)
Definition maxDecBitLen : Z := 315.

(** Modelled from the spec: [big.Int.BitLen], the length in bits of the
    absolute value, zero for zero. *)
Definition BitLen (x : Z) : Z :=
  if x =? 0 then 0 else Z.log2 (Z.abs x) + 1.

(** Modelled from the spec: [chopPrecisionAndRound] on a number that is not
    negative: the last 18 digits are removed and the rest is rounded on them,
    a half going to the even neighbour (banker's rounding). *)
Definition chopNonNegative (d : Z) : Z :=
  let quo := d / precisionReuse in
  let rem := d mod precisionReuse in
  if rem =? 0 then quo
  else
    match rem ?= fivePrecision with
    | Lt => quo
    | Gt => quo + 1
    | Eq => if Z.even quo then quo else quo + 1
    end.

(** Modelled from the spec: [chopPrecisionAndRound]; a negative number is
    chopped as its opposite, the sign put back. *)
Definition chopPrecisionAndRound (d : Z) : Z :=
  if d <? 0 then - chopNonNegative (- d) else chopNonNegative d.

(** Modelled from the spec: [sdk.ZeroDec()]. *)
Definition ZeroDec : Dec := 0.

(** Modelled from the spec: [sdk.NewDec(i)], the decimal of an integer. *)
Definition NewDec (i : Z) : Dec := i * precisionReuse.

(** Modelled from the spec: [Dec.Add], the sum of the two integers. *)
Definition Dec_Add (a b : Dec) : Dec := a + b.

(** Modelled from the spec: [Dec.Sub], the difference of the two integers. *)
Definition Dec_Sub (a b : Dec) : Dec := a - b.

(** Modelled from the spec: [Dec.Neg]. *)
Definition Dec_Neg (a : Dec) : Dec := - a.

(** Modelled from the spec: [Dec.Mul] either panics or returns; the two parts
    are kept apart.  [Dec_Mul] is the decimal it returns: the product of the
    two integers, chopped and rounded back to 18 decimals. *)
Definition Dec_Mul (a b : Dec) : Dec := chopPrecisionAndRound (a * b).

(** Modelled from the spec: the test on which [Dec.Mul] panics
    ["Int overflow"]: the rounded product takes more than [maxDecBitLen]
    bits. *)
Definition Dec_MulOverflows (a b : Dec) : bool :=
  maxDecBitLen <? BitLen (chopPrecisionAndRound (a * b)).

(** Modelled from the spec: [Dec.Quo], the decimal it returns: the quotient,
    truncated, of the dividend scaled twice by the divisor, chopped and
    rounded back to 18 decimals. *)
Definition Dec_Quo (a b : Dec) : Dec :=
  chopPrecisionAndRound (Z.quot (a * precisionReuse * precisionReuse) b).

(** Modelled from the spec: the test on which [Dec.Quo] panics
    ["Int overflow"]. *)
Definition Dec_QuoOverflows (a b : Dec) : bool :=
  maxDecBitLen <?
  BitLen
    (chopPrecisionAndRound (Z.quot (a * precisionReuse * precisionReuse) b)).

(** Modelled from the spec: [Dec.IsZero]. *)
Definition Dec_IsZero (a : Dec) : bool := a =? 0.

(** Modelled from the spec: [Dec.IsNegative]. *)
Definition Dec_IsNegative (a : Dec) : bool := a <? 0.

(** Modelled from the spec: [Dec.IsPositive]. *)
Definition Dec_IsPositive (a : Dec) : bool := 0 <? a.

(** Modelled from the spec: [Dec.GT]. *)
Definition Dec_GT (a b : Dec) : bool := b <? a.

(** Modelled from the spec: [Dec.IsInteger]: no decimals, the remainder by
    [precisionReuse] is zero. *)
Definition Dec_IsInteger (a : Dec) : bool := Z.rem a precisionReuse =? 0.

(** Modelled from the spec: [sdk.DecCoin], an amount of one denomination; Go:
    [type DecCoin struct { Denom string; Amount Dec }]. *)
Record DecCoin : Type := mkDecCoin { Denom : string; Amount : Dec }.

(** Modelled from the spec: [DecCoin.IsZero]. *)
Definition DecCoin_IsZero (coin : DecCoin) : bool := Dec_IsZero (Amount coin).

(** Modelled from the spec: [DecCoin.IsNegative]. *)
Definition DecCoin_IsNegative (coin : DecCoin) : bool :=
  Dec_IsNegative (Amount coin).

(** Modelled from the spec: [DecCoin.Add]; the library panics when the two
    denominations differ, [safeAdd] below calls it only after comparing them
    equal. *)
Definition DecCoin_Add (coin coinB : DecCoin) : DecCoin :=
  mkDecCoin (Denom coin) (Dec_Add (Amount coin) (Amount coinB)).

(** Modelled from the spec: [sdk.DecCoins], the multi-denomination decimal of
    the cosmos-sdk (types/dec_coin.go, a library outside this repository).
    The spec contracts it as a mapping from denomination to amount, a
    denomination present only when its amount is not zero, with
    per-denomination arithmetic over the union of the keys.  The
    representation is the library's: a slice of coins kept sorted by
    denomination, added by one merging pass. *)
Definition DecCoins : Type := list DecCoin.

(** Modelled from the spec: [sdk.NewDecCoins()], the empty set, zero in every
    denomination. *)
Definition NewDecCoins : DecCoins := [].

(** Modelled from the spec: [removeZeroDecCoins], which keeps a denomination
    only when its amount is not zero. *)
Definition removeZeroDecCoins (coins : DecCoins) : DecCoins :=
  List.filter (fun coin => negb (DecCoin_IsZero coin)) coins.

(** Modelled from the spec: [DecCoins.safeAdd], the per-denomination sum over
    the union of the denominations.  Both slices are walked by increasing
    denomination; equal denominations are summed, a zero coin is never
    appended. *)
Fixpoint safeAdd (coins coinsB : DecCoins) {struct coins} : DecCoins :=
  match coins with
  | [] => removeZeroDecCoins coinsB
  | coinA :: restA =>
      (fix walkB (coinsB : DecCoins) {struct coinsB} : DecCoins :=
         match coinsB with
         | [] => removeZeroDecCoins (coinA :: restA)
         | coinB :: restB =>
             match String.compare (Denom coinA) (Denom coinB) with
             | Lt =>
                 if DecCoin_IsZero coinA
                 then safeAdd restA (coinB :: restB)
                 else coinA :: safeAdd restA (coinB :: restB)
             | Eq =>
                 let res := DecCoin_Add coinA coinB in
                 if DecCoin_IsZero res
                 then safeAdd restA restB
                 else res :: safeAdd restA restB
             | Gt =>
                 if DecCoin_IsZero coinB
                 then walkB restB
                 else coinB :: walkB restB
             end
         end) coinsB
  end.

(** Modelled from the spec: [DecCoins.Add]. *)
Definition Add (coins coinsB : DecCoins) : DecCoins := safeAdd coins coinsB.

(** Modelled from the spec: [DecCoins.negative], every amount negated. *)
Definition negative (coins : DecCoins) : DecCoins :=
  List.map (fun coin => mkDecCoin (Denom coin) (Dec_Neg (Amount coin))) coins.

(** Modelled from the spec: [DecCoins.IsAnyNegative]. *)
Definition IsAnyNegative (coins : DecCoins) : bool :=
  List.existsb DecCoin_IsNegative coins.

(** Modelled from the spec: [DecCoins.SafeSub], the per-denomination
    difference and whether it is negative somewhere. *)
Definition SafeSub (coins coinsB : DecCoins) : DecCoins * bool :=
  let diff := safeAdd coins (negative coinsB) in
  (diff, IsAnyNegative diff).

(** Modelled from the spec: [DecCoins.Sub], which panics on a negative
    difference. *)
Definition Sub (coins coinsB : DecCoins) : result DecCoins :=
  let '(diff, hasNeg) := SafeSub coins coinsB in
  if hasNeg then Panic "negative coin amount" else Ok diff.

(** Modelled from the spec: the body of the loop of [DecCoins.MulDec]: a
    product that is not zero is added to the running set. *)
Definition mulStep (d : Dec) (res : DecCoins) (coin : DecCoin) : DecCoins :=
  let product := mkDecCoin (Denom coin) (Dec_Mul (Amount coin) d) in
  if DecCoin_IsZero product then res else Add res [product].

(** Modelled from the spec: [DecCoins.MulDec], the per-denomination product
    with a decimal: the set it returns when no product panics.  A call whose
    products cannot overflow uses it as it is: the product by [minusOne] in
    [validateAccumulatorValue] only changes the sign of an amount. *)
Definition MulDec (coins : DecCoins) (d : Dec) : DecCoins :=
  List.fold_left (mulStep d) coins [].

(** Modelled from the spec: whether [DecCoins.MulDec] panics: the product of
    some coin overflows. *)
Definition MulDecOverflows (coins : DecCoins) (d : Dec) : bool :=
  List.existsb (fun coin => Dec_MulOverflows (Amount coin) d) coins.

(** Modelled from the spec: [DecCoins.MulDec] with its panic. *)
Definition MulDecOrPanic (coins : DecCoins) (d : Dec) : result DecCoins :=
  if MulDecOverflows coins d then Panic "Int overflow" else Ok (MulDec coins d).

(** Modelled from the spec: the body of the loop of [DecCoins.QuoDec]: a
    quotient that is not zero is added to the running set. *)
Definition quoStep (d : Dec) (res : DecCoins) (coin : DecCoin) : DecCoins :=
  let quotient := mkDecCoin (Denom coin) (Dec_Quo (Amount coin) d) in
  if DecCoin_IsZero quotient then res else Add res [quotient].

(** Modelled from the spec: [DecCoins.QuoDec], the per-denomination quotient
    by a decimal; it panics on a zero divisor and when a quotient
    overflows. *)
Definition QuoDec (coins : DecCoins) (d : Dec) : result DecCoins :=
  if Dec_IsZero d then Panic "invalid zero decimal"
  else if List.existsb (fun coin => Dec_QuoOverflows (Amount coin) d) coins
  then Panic "Int overflow"
  else Ok (List.fold_left (quoStep d) coins []).

(** Modelled from the spec: [DecCoins.AmountOf], the amount held under a
    denomination, zero when the set has none. *)
Fixpoint AmountOf (denom : string) (coins : DecCoins) : Dec :=
  match coins with
  | [] => ZeroDec
  | coin :: rest =>
      if String.eqb (Denom coin) denom then Amount coin else AmountOf denom rest
  end.

End sdk.
Import sdk.

(** ** Store helpers *)

Module osmoutils.

(** The persistence layer obeys a plain get/set contract: a value set under a
    key is the value read back.  A store is the finite map of its contents;
    each helper returns the contents after the call. *)
Section KVStore.
Context {K : Type} `{Countable K} {V : Type}.

(** Modelled from the spec: [osmoutils.MustSet] (osmoutils/store_helper.go,
    not among the sources embedded here): the unconditional write of one
    record. *)
Definition MustSet (storeObj : gmap K V) (key : K) (value : V) : gmap K V :=
  <[key := value]> storeObj.

(** Modelled from the spec: [osmoutils.Get] (osmoutils/store_helper.go, not
    among the sources embedded here): a read, which writes nothing and whose
    decoding of a stored record does not fail.  Go:
    [found, err := osmoutils.Get(store, key, &result)]; the third output is
    [result] after the call. *)
Definition Get {E : Type} (storeObj : gmap K V) (key : K) (result : V)
  : (bool * option E * V) * gmap K V :=
  match storeObj !! key with
  | None => ((false, None, result), storeObj)
  | Some b => ((true, None, b), storeObj)
  end.
End KVStore.

End osmoutils.

(** ** Package accum: data *)

(** Modelled from the spec: [Options] (its declaration is not among the
    sources embedded here), an
    opaque configuration bundle that every operation passes through; a
    serialised value stands for it.  Go's [*Options] is
    [option accum_Options], [nil] being [None]. *)
Definition accum_Options : Type := string.

(** Modelled from the spec: the position record [Record] of the package (its
    declaration is not among the sources embedded here); the four fields are
    those that [initOrUpdatePosition] fills in. *)
Record PositionRecord : Type := mkPositionRecord {
  NumShares : Dec;
  InitAccumValue : DecCoins;
  UnclaimedRewards : DecCoins;
  Options : option accum_Options
}.

(** Go's zero value [Record{}]. *)
Definition emptyRecord : PositionRecord :=
  mkPositionRecord ZeroDec [] [] None.

(** Modelled from the spec: [formatPositionPrefixKey] (not among the sources
    embedded here); the store is keyed by (accumulator name, position
    index). *)
Definition formatPositionPrefixKey (accumName name : string)
  : string * string :=
  (accumName, name).

(** Modelled from the spec: [AccumulatorObject] (its declaration is not among
    the sources embedded here): the store handle, the name, the current value
    and the total number of shares. *)
Record AccumulatorObject : Type := mkAccumulatorObject {
  store : gmap (string * string) PositionRecord;
  name : string;
  value : DecCoins;
  totalShares : Dec
}.

(** The error values of the package.  The first three are those of
    accum_helpers.go; the others are the lifecycle errors named by the spec. *)
Inductive error : Type :=
| NoPositionError (name : string)
| NegativeCustomAccError (CustomAccumulatorValue : DecCoins)
| NegativeAccDifferenceError (AccumulatorDifference : DecCoins)
| DuplicatePositionError (name : string)
| ZeroSharesError
| InsufficientSharesError
| InvalidDeltaError (delta : DecCoins)
| NegativeTotalSharesError.

(** ** Package accum: accum_helpers.go *)

Definition minusOne : Dec := NewDec (-1).

(** The accumulator object as the caller sees it once the store behind its
    handle holds [store']; Go passes [accum] by value, its other fields cannot
    change. *)
Definition withStore (accum : AccumulatorObject)
    (store' : gmap (string * string) PositionRecord) : AccumulatorObject :=
  {| store := store';
     name := name accum;
     value := value accum;
     totalShares := totalShares accum |}.

(** The two functions that reach the store through [accum.store] return the
    accumulator object after the call. *)
Definition initOrUpdatePosition (accum : AccumulatorObject)
    (accumulatorValue : DecCoins) (index : string) (numShareUnits : Dec)
    (unclaimedRewards : DecCoins) (options : option accum_Options)
  : AccumulatorObject :=
  let position := {|
    NumShares := numShareUnits;
    InitAccumValue := accumulatorValue;
    UnclaimedRewards := unclaimedRewards;
    Options := options
  |} in
  withStore accum
    (osmoutils.MustSet (store accum)
       (formatPositionPrefixKey (name accum) index) position).

Definition getPosition (accum : AccumulatorObject) (name' : string)
  : (PositionRecord * option error) * AccumulatorObject :=
  let position := emptyRecord in
  let '((found, err, position), store') :=
    osmoutils.Get (store accum) (formatPositionPrefixKey (name accum) name')
      position in
  let accum' := withStore accum store' in
  match err with
  | Some e => ((emptyRecord, Some e), accum')
  | None =>
      if negb found then ((emptyRecord, Some (NoPositionError name')), accum')
      else ((position, None), accum')
  end.

Definition getTotalRewards (accum : AccumulatorObject)
    (position : PositionRecord) (feeGrowthOutside : DecCoins)
  : result DecCoins :=
  let totalRewards := UnclaimedRewards position in
  let* diff :=
    Sub (value accum) (Add (InitAccumValue position) feeGrowthOutside) in
  let* accumulatorRewards := MulDecOrPanic diff (NumShares position) in
  let totalRewards := Add totalRewards accumulatorRewards in
  Ok totalRewards.

Definition validateAccumulatorValue
    (customAccumulatorValue oldPositionAccumulatorValue : DecCoins)
  : option error :=
  if IsAnyNegative customAccumulatorValue
  then Some (NegativeCustomAccError customAccumulatorValue)
  else
    let '(newValue, IsAnyNegative) :=
      SafeSub customAccumulatorValue oldPositionAccumulatorValue in
    if IsAnyNegative
    then Some (NegativeAccDifferenceError (MulDec newValue minusOne))
    else None.

(** ** Valid coin sets and their denotation *)

Definition denom_lt (a b : string) : Prop := String.compare a b = Lt.

(** Every denomination of [coins] is strictly after [lo]. *)
Fixpoint denoms_above (lo : string) (coins : DecCoins) : Prop :=
  match coins with
  | [] => True
  | coin :: rest => denom_lt lo (Denom coin) /\ denoms_above lo rest
  end.

(** The library's ordering invariant: denominations strictly increase, so
    each occurs at most once. *)
Fixpoint sorted_denoms (coins : DecCoins) : Prop :=
  match coins with
  | [] => True
  | coin :: rest => denoms_above (Denom coin) rest /\ sorted_denoms rest
  end.

(** No coin of the set is zero. *)
Definition no_zero_coin (coins : DecCoins) : Prop :=
  Forall (fun coin => Amount coin <> 0) coins.

(** Component-wise order, a missing denomination counting as zero. *)
Definition coins_le (a b : DecCoins) : Prop :=
  forall denom, AmountOf denom a <= AmountOf denom b.

(** ** Package accum: the position lifecycle *)

(** What an operation on an accumulator does: it commits a new state and
    hands a payout to the caller, or returns an error value, or panics.  In
    the last two cases the host discards every write of the operation. *)
Inductive outcome : Type :=
| Committed (accum' : AccumulatorObject) (payout : DecCoins)
| Rejected (err : error)
| Aborted (msg : string).

Definition withValue (accum : AccumulatorObject) (value' : DecCoins)
  : AccumulatorObject :=
  {| store := store accum;
     name := name accum;
     value := value';
     totalShares := totalShares accum |}.

(** Modelled from the spec: what [delta] stands for in [increaseValue].  The
    spec reads it both ways: the operation adds [delta] component-wise
    (section 4.1), [delta] being the growth of the reward per share; the value
    grows by the newly collected rewards divided by the current total shares
    (section 3 and the scenarios of section 8), [delta] being the rewards
    collected. *)
Inductive reading : Type :=
| PerShare
| Split.

(** Modelled from the spec: the growth of the value per share that a delta
    brings.  Under [Split] the delta is divided by the total shares, with the
    panics of [DecCoins.QuoDec]: no shares, or a quotient out of range. *)
Definition increment (r : reading) (accum : AccumulatorObject)
    (delta : DecCoins) : result DecCoins :=
  match r with
  | PerShare => Ok delta
  | Split => QuoDec delta (totalShares accum)
  end.

(** Modelled from the spec: [increaseValue] of the accumulator object
    (accum.go, not among the sources embedded here): adds the growth
    component-wise and fails with [InvalidDeltaError] unless [delta] is
    non-negative in every denomination. *)
Definition IncreaseValue (r : reading) (accum : AccumulatorObject)
    (delta : DecCoins) : outcome :=
  if IsAnyNegative delta then Rejected (InvalidDeltaError delta)
  else
    match increment r accum delta with
    | Panic msg => Aborted msg
    | Ok growth =>
        Committed (withValue accum (Add (value accum) growth)) NewDecCoins
    end.

(** Modelled from the spec: [adjustTotalShares] (accum.go, not among the
    sources embedded here): fails with [NegativeTotalSharesError] if the
    result would go below zero. *)
Definition adjustTotalShares (accum : AccumulatorObject) (delta : Dec)
  : AccumulatorObject * option error :=
  let total := Dec_Add (totalShares accum) delta in
  if Dec_IsNegative total then (accum, Some NegativeTotalSharesError)
  else
    ({| store := store accum;
        name := name accum;
        value := value accum;
        totalShares := total |}, None).

(** Modelled from the spec: deleting the record of a position whose shares
    reached zero (accum.go, not among the sources embedded here). *)
Definition deletePosition (accum : AccumulatorObject) (index : string)
  : AccumulatorObject :=
  withStore accum
    (delete (formatPositionPrefixKey (name accum) index) (store accum)).

(** Modelled from the spec: Create (accum.go, not among the sources embedded
    here): no record may exist under the index, the shares must be positive;
    the record is written with zero unclaimed rewards and the total shares
    grow. *)
Definition CreatePosition (accum : AccumulatorObject) (index : string)
    (numShares : Dec) (options : option accum_Options) : outcome :=
  let '((_, err), accum) := getPosition accum index in
  match err with
  | None => Rejected (DuplicatePositionError index)
  | Some _ =>
      if negb (Dec_IsPositive numShares) then Rejected ZeroSharesError
      else
        let accum :=
          initOrUpdatePosition accum (value accum) index numShares
            NewDecCoins options in
        match adjustTotalShares accum numShares with
        | (_, Some e) => Rejected e
        | (accum, None) => Committed accum NewDecCoins
        end
  end.

(** Modelled from the spec: the snapshot a settlement re-bases a record at:
    the accumulator value minus the growth outside (accum_helpers.go, the
    comment in [getTotalRewards]), which is the current value when there is
    no growth outside.  The subtraction is [DecCoins.Sub], with its panic. *)
Definition settledValue (accum : AccumulatorObject) (growthOutside : DecCoins)
  : result DecCoins :=
  Sub (value accum) growthOutside.

(** Modelled from the spec: Add shares (accum.go, not among the sources
    embedded here): the rewards earned under the old share count are settled
    into the unclaimed rewards, the record is re-based with the new share
    count and the same options, the total shares grow by [delta]. *)
Definition AddToPosition (accum : AccumulatorObject) (index : string)
    (delta : Dec) (growthOutside : DecCoins) : outcome :=
  let '((position, err), accum) := getPosition accum index in
  match err with
  | Some e => Rejected e
  | None =>
      match getTotalRewards accum position growthOutside with
      | Panic msg => Aborted msg
      | Ok unclaimedRewards =>
          match settledValue accum growthOutside with
          | Panic msg => Aborted msg
          | Ok accumulatorValue =>
              let accum :=
                initOrUpdatePosition accum accumulatorValue index
                  (Dec_Add (NumShares position) delta) unclaimedRewards
                  (Options position) in
              match adjustTotalShares accum delta with
              | (_, Some e) => Rejected e
              | (accum, None) => Committed accum NewDecCoins
              end
          end
      end
  end.

(** Modelled from the spec: Remove shares (accum.go, not among the sources
    embedded here): fails with [InsufficientSharesError] if [delta] exceeds
    the shares; settles; re-bases the record with the reduced share count or,
    when no share is left, deletes it and hands the full unclaimed rewards to
    the caller; the total shares decrease by [delta]. *)
Definition RemoveFromPosition (accum : AccumulatorObject) (index : string)
    (delta : Dec) (growthOutside : DecCoins) : outcome :=
  let '((position, err), accum) := getPosition accum index in
  match err with
  | Some e => Rejected e
  | None =>
      if Dec_GT delta (NumShares position) then Rejected InsufficientSharesError
      else
        match getTotalRewards accum position growthOutside with
        | Panic msg => Aborted msg
        | Ok unclaimedRewards =>
            match settledValue accum growthOutside with
            | Panic msg => Aborted msg
            | Ok accumulatorValue =>
                let remaining := Dec_Sub (NumShares position) delta in
                let '(accum, payout) :=
                  if Dec_IsZero remaining
                  then (deletePosition accum index, unclaimedRewards)
                  else (initOrUpdatePosition accum accumulatorValue index
                          remaining unclaimedRewards (Options position),
                        NewDecCoins) in
                match adjustTotalShares accum (Dec_Neg delta) with
                | (_, Some e) => Rejected e
                | (accum, None) => Committed accum payout
                end
            end
        end
  end.

(** Modelled from the spec: Claim (accum.go, not among the sources embedded
    here): settles, returns the full unclaimed rewards for payout and
    re-bases the record with the same shares and zero unclaimed rewards; the
    total shares do not change. *)
Definition ClaimRewards (accum : AccumulatorObject) (index : string)
    (growthOutside : DecCoins) : outcome :=
  let '((position, err), accum) := getPosition accum index in
  match err with
  | Some e => Rejected e
  | None =>
      match getTotalRewards accum position growthOutside with
      | Panic msg => Aborted msg
      | Ok totalRewards =>
          match settledValue accum growthOutside with
          | Panic msg => Aborted msg
          | Ok accumulatorValue =>
              let accum :=
                initOrUpdatePosition accum accumulatorValue index
                  (NumShares position) NewDecCoins (Options position) in
              Committed accum totalRewards
          end
      end
  end.

(** Modelled from the spec: a freshly created accumulator: value zero, no
    shares, no position. *)
Definition CreateAccumulator (name' : string) : AccumulatorObject :=
  {| store := ∅;
     name := name';
     value := NewDecCoins;
     totalShares := ZeroDec |}.

(** *** Sequences of operations on one accumulator *)

Inductive Operation : Type :=
| OpIncreaseValue (delta : DecCoins)
| OpCreatePosition (index : string) (numShares : Dec)
    (options : option accum_Options)
| OpAddToPosition (index : string) (delta : Dec) (growthOutside : DecCoins)
| OpRemoveFromPosition (index : string) (delta : Dec)
    (growthOutside : DecCoins)
| OpClaimRewards (index : string) (growthOutside : DecCoins).

Definition applyOp (r : reading) (accum : AccumulatorObject) (op : Operation)
  : outcome :=
  match op with
  | OpIncreaseValue delta => IncreaseValue r accum delta
  | OpCreatePosition index numShares options =>
      CreatePosition accum index numShares options
  | OpAddToPosition index delta growthOutside =>
      AddToPosition accum index delta growthOutside
  | OpRemoveFromPosition index delta growthOutside =>
      RemoveFromPosition accum index delta growthOutside
  | OpClaimRewards index growthOutside =>
      ClaimRewards accum index growthOutside
  end.

(** The accumulator together with the books kept about it: every payout handed
    to a caller, and every committed [IncreaseValue] delta with the total
    shares at the time of the call. *)
Record Ledger : Type := mkLedger {
  accumulator : AccumulatorObject;
  payouts : list DecCoins;
  deltas : list (DecCoins * Dec)
}.

(** One operation; an operation that does not commit leaves no trace. *)
Definition step (r : reading) (l : Ledger) (op : Operation) : Ledger :=
  match applyOp r (accumulator l) op with
  | Committed accum' payout =>
      {| accumulator := accum';
         payouts := payout :: payouts l;
         deltas := match op with
                   | OpIncreaseValue delta =>
                       (delta, totalShares (accumulator l)) :: deltas l
                   | _ => deltas l
                   end |}
  | Rejected _ | Aborted _ => l
  end.

Definition run (r : reading) (ops : list Operation) (l : Ledger) : Ledger :=
  fold_left (step r) ops l.

Definition newLedger (name' : string) : Ledger :=
  {| accumulator := CreateAccumulator name'; payouts := []; deltas := [] |}.

(** The sum over a list of integers. *)
Definition sumZ (l : list Z) : Z := fold_right Z.add 0 l.

(** The total paid out in a denomination. *)
Definition paidOut (denom : string) (l : Ledger) : Z :=
  sumZ (List.map (AmountOf denom) (payouts l)).

(** The sum of the committed deltas in a denomination. *)
Definition sumDeltas (denom : string) (l : Ledger) : Z :=
  sumZ (List.map (fun e => AmountOf denom (fst e)) (deltas l)).

(** What a committed delta brought in a denomination: the growth of the
    value per share, multiplied by the total shares it was spread over. *)
Definition worth (r : reading) (denom : string) (e : DecCoins * Dec) : Z :=
  let growth :=
    match r with
    | PerShare => AmountOf denom (fst e)
    | Split => Dec_Quo (AmountOf denom (fst e)) (snd e)
    end in
  Dec_Mul growth (snd e).

(** The sum of what the committed deltas brought in a denomination. *)
Definition fundedRewards (r : reading) (denom : string) (l : Ledger) : Z :=
  sumZ (List.map (worth r denom) (deltas l)).

(** The sum of [f] over the records of a store. *)
Definition sumRecords (f : PositionRecord -> Z)
    (m : gmap (string * string) PositionRecord) : Z :=
  map_fold (fun _ position acc => f position + acc) 0 m.

(** What [getTotalRewards] computes for a position in a denomination, without
    growth outside. *)
Definition positionRewards (accum : AccumulatorObject) (denom : string)
    (position : PositionRecord) : Z :=
  match getTotalRewards accum position NewDecCoins with
  | Ok totalRewards => AmountOf denom totalRewards
  | Panic _ => 0
  end.

(** The computed total rewards of all live positions. *)
Definition liveRewards (denom : string) (accum : AccumulatorObject) : Z :=
  sumRecords (positionRewards accum denom) (store accum).

(** An operation of a non-ranged accumulator: no growth outside; the delta of
    an [IncreaseValue] is a valid coin set. *)
Definition nonRanged (op : Operation) : Prop :=
  match op with
  | OpIncreaseValue delta => sorted_denoms delta
  | OpCreatePosition _ _ _ => True
  | OpAddToPosition _ _ growthOutside => growthOutside = NewDecCoins
  | OpRemoveFromPosition _ _ growthOutside => growthOutside = NewDecCoins
  | OpClaimRewards _ growthOutside => growthOutside = NewDecCoins
  end.

(** An operation that deals in whole shares: the number of shares it creates,
    adds or removes has no decimals. *)
Definition wholeShares (op : Operation) : Prop :=
  match op with
  | OpIncreaseValue _ => True
  | OpCreatePosition _ numShares _ => Dec_IsInteger numShares = true
  | OpAddToPosition _ delta _ => Dec_IsInteger delta = true
  | OpRemoveFromPosition _ delta _ => Dec_IsInteger delta = true
  | OpClaimRewards _ _ => True
  end.

(** Every live position can be read: [getTotalRewards] returns for it. *)
Definition readable (accum : AccumulatorObject) : bool :=
  map_fold
    (fun _ position acc =>
       match getTotalRewards accum position NewDecCoins with
       | Ok _ => acc
       | Panic _ => false
       end)
    true (store accum).

(** *** The books of an accumulator *)

(** What the formula of the spec owes a record in a denomination:
    [unclaimedRewards + numShares * (value - initAccumValue)], the product
    being that of the decimals. *)
Definition owed (value' : DecCoins) (denom : string)
    (position : PositionRecord) : Z :=
  AmountOf denom (UnclaimedRewards position) +
  Dec_Mul (AmountOf denom value' - AmountOf denom (InitAccumValue position))
    (NumShares position).

(** A record holds valid coin sets and a snapshot that the accumulator value
    has reached. *)
Definition validRecord (value' : DecCoins) (position : PositionRecord) : Prop :=
  sorted_denoms (InitAccumValue position) /\
  sorted_denoms (UnclaimedRewards position) /\
  coins_le (InitAccumValue position) value'.

(** The invariant of a ledger of whole shares: valid records, shares without
    decimals, total shares that are the sum of the shares of the records and
    were whole (and, when deltas are split, not zero) at every committed
    delta, and books that balance in every denomination. *)
Record Conserved (r : reading) (l : Ledger) : Prop := mkConserved {
  cons_value : sorted_denoms (value (accumulator l));
  cons_records :
    forall key position,
      store (accumulator l) !! key = Some position ->
      validRecord (value (accumulator l)) position;
  cons_whole :
    forall key position,
      store (accumulator l) !! key = Some position ->
      Dec_IsInteger (NumShares position) = true;
  cons_shares :
    totalShares (accumulator l) = sumRecords NumShares (store (accumulator l));
  cons_total : 0 <= totalShares (accumulator l);
  cons_deltas :
    Forall (fun e => Dec_IsInteger (snd e) = true /\
                     (r = Split -> snd e <> 0)) (deltas l);
  cons_books :
    forall denom,
      paidOut denom l +
      sumRecords (owed (value (accumulator l)) denom) (store (accumulator l)) =
      fundedRewards r denom l
}.

(** ** The range of the decimals *)

(** A decimal the library can hold: no more than [maxDecBitLen] bits. *)
Definition Dec_inRange (d : Dec) : Prop := BitLen d <= maxDecBitLen.

(** Reading [position] against [accum] forms decimals within range only: in
    every denomination the snapshot plus the growth outside, its difference
    to the accumulator value, the product of that difference with the shares,
    and the sum of the unclaimed rewards and the product. *)
Definition rewardsInRange (accum : AccumulatorObject)
    (position : PositionRecord) (feeGrowthOutside : DecCoins) : Prop :=
  forall denom,
    let base :=
      AmountOf denom (InitAccumValue position) +
      AmountOf denom feeGrowthOutside in
    let diff := AmountOf denom (value accum) - base in
    Dec_inRange base /\
    Dec_inRange diff /\
    Dec_MulOverflows diff (NumShares position) = false /\
    Dec_inRange
      (AmountOf denom (UnclaimedRewards position) +
       Dec_Mul diff (NumShares position)).

(** ** Sample data *)

Definition uX (amount : Dec) : DecCoin := mkDecCoin "uX" amount.
Definition uY (amount : Dec) : DecCoin := mkDecCoin "uY" amount.

Definition samplePosition : PositionRecord :=
  {| NumShares := 100;
     InitAccumValue := [uX 3];
     UnclaimedRewards := [uY 1];
     Options := None |}.

Definition sampleAccum : AccumulatorObject :=
  {| store := {[ ("pool", "a") := samplePosition ]};
     name := "pool";
     value := [uX 10; uY 4];
     totalShares := 100 |}.

(** A position whose snapshot is ahead of the accumulator it is read
    against. *)
Definition aheadPosition : PositionRecord :=
  {| NumShares := 1;
     InitAccumValue := [uX 1];
     UnclaimedRewards := [];
     Options := None |}.

Definition emptyAccum : AccumulatorObject := CreateAccumulator "pool".

(** A position of a hundred whole shares. *)
Definition wholePosition : PositionRecord :=
  {| NumShares := NewDec 100;
     InitAccumValue := [uX 3];
     UnclaimedRewards := [uY 1];
     Options := None |}.

(** An accumulator holding [wholePosition]. *)
Definition wholeAccum : AccumulatorObject :=
  {| store := {[ ("pool", "a") := wholePosition ]};
     name := "pool";
     value := [uX 10; uY 4];
     totalShares := NewDec 100 |}.

(** A position and an accumulator value whose product is out of range. *)
Definition hugePosition : PositionRecord :=
  {| NumShares := NewDec (2 ^ 200);
     InitAccumValue := [];
     UnclaimedRewards := [];
     Options := None |}.

Definition hugeAccum : AccumulatorObject :=
  {| store := {[ ("pool", "a") := hugePosition ]};
     name := "pool";
     value := [uX (NewDec (2 ^ 200))];
     totalShares := NewDec (2 ^ 200) |}.

(** Amounts in whole coins. *)
Definition wX (amount : Z) : DecCoin := uX (NewDec amount).
Definition wY (amount : Z) : DecCoin := uY (NewDec amount).

Definition sampleOps : list Operation :=
  [ OpCreatePosition "a" (NewDec 100) None;
    OpIncreaseValue [wX 1000];
    OpCreatePosition "b" (NewDec 100) None;
    OpIncreaseValue [wX 1000; wY 300];
    OpClaimRewards "a" [];
    OpAddToPosition "b" (NewDec 50) [];
    OpIncreaseValue [wY 500];
    OpRemoveFromPosition "a" (NewDec 100) [];
    OpRemoveFromPosition "b" (NewDec 30) [] ].

(** Two positions of half a share each and a delta of the smallest amount. *)
Definition halfShareOps : list Operation :=
  [ OpCreatePosition "a" (NewDec 1 / 2) None;
    OpCreatePosition "b" (NewDec 1 / 2) None;
    OpIncreaseValue [uX 1] ].

(** The first scenario of section 8 of the spec. *)
Definition scenarioOps : list Operation :=
  [ OpCreatePosition "a" (NewDec 100) None;
    OpIncreaseValue [wX 10];
    OpCreatePosition "b" (NewDec 100) None;
    OpIncreaseValue [wX 10] ].

(** The second scenario of section 8 of the spec, the total shares kept at a
    hundred by a second position. *)
Definition removalOps : list Operation :=
  [ OpCreatePosition "a" (NewDec 100) None;
    OpIncreaseValue [wX 10];
    OpRemoveFromPosition "a" (NewDec 40) [];
    OpCreatePosition "b" (NewDec 40) None;
    OpIncreaseValue [wX 6] ].

(** ** More sample data *)

(** A position without shares. *)
Definition idlePosition : PositionRecord :=
  {| NumShares := 0;
     InitAccumValue := [uX 3];
     UnclaimedRewards := [uY 1];
     Options := None |}.

(** A position whose snapshot is the value of [sampleAccum]. *)
Definition settledPosition : PositionRecord :=
  {| NumShares := 100;
     InitAccumValue := [uX 10; uY 4];
     UnclaimedRewards := [uY 1];
     Options := None |}.

(** [sampleAccum] after its value has grown. *)
Definition grownAccum : AccumulatorObject :=
  withValue sampleAccum [uX 12; uY 4].

(** ** Package gamm keeper: gov.go *)

Module gamm.

(** Go's [error], by its message. *)
Definition error : Type := string.

(** [sdk.Coin]: an integer amount of one denomination. *)
Record Coin : Type := mkCoin { Denom : string; Amount : Z }.

(** One record of the proposal, with the fields the handler reads. *)
Record PoolRecordWithCFMMLink : Type := mkPoolRecordWithCFMMLink {
  Denom0 : string;
  TickSpacing : N;
  SpreadFactor : Dec;
  BalancerPoolId : N
}.

(** Go: [types.CreateConcentratedLiquidityPoolsAndLinktoCFMMProposal], with
    the field the handler reads. *)
Record CreateConcentratedLiquidityPoolsAndLinktoCFMMProposal : Type :=
  mkProposal { PoolRecordsWithCfmmLink : list PoolRecordWithCFMMLink }.

(** The message built by [clmodel.NewMsgCreateConcentratedPool], as the
    arguments it is built from. *)
Record MsgCreateConcentratedPool (Address : Type) : Type :=
  NewMsgCreateConcentratedPool {
    msgSender : Address;
    msgDenom0 : string;
    msgDenom1 : string;
    msgTickSpacing : N;
    msgSpreadFactor : Dec
  }.
Arguments NewMsgCreateConcentratedPool {Address}.
Arguments msgSender {Address}.
Arguments msgDenom0 {Address}.
Arguments msgDenom1 {Address}.
Arguments msgTickSpacing {Address}.
Arguments msgSpreadFactor {Address}.

(** Go: [gammmigration.BalancerToConcentratedPoolLink]. *)
Record BalancerToConcentratedPoolLink : Type :=
  mkBalancerToConcentratedPoolLink { linkBalancerPoolId : N; ClPoolId : N }.

(** Go: [gammmigration.MigrationRecords]. *)
Record MigrationRecords : Type := mkMigrationRecords {
  BalancerToConcentratedPoolLinks : list BalancerToConcentratedPoolLink
}.

(** The keeper with the collaborators the handler calls, all taken as
    parameters: [ctx] stands for the chain state behind [sdk.Context]; the
    calls named Get read it, the two others return it changed. *)
Record Keeper : Type := mkKeeper {
  Context : Type;
  Address : Type;
  ModuleAccount : Type;
  CFMMPool : Type;
  ConcentratedPool : Type;
  ModuleName : string;
  GetModuleAccount : Context -> string -> ModuleAccount;
  GetAddress : ModuleAccount -> Address;
  GetCFMMPool : Context -> N -> CFMMPool + error;
  GetTotalPoolLiquidity : CFMMPool -> Context -> list Coin;
  CreateConcentratedPoolAsPoolManager :
    Context -> MsgCreateConcentratedPool Address ->
    (ConcentratedPool + error) * Context;
  GetId : ConcentratedPool -> N;
  OverwriteMigrationRecordsAndRedirectDistrRecords :
    Context -> MigrationRecords -> option error * Context
}.

(** The body of the loop over the pool liquidity: [st] is
    [(foundDenom0, denom1)]. *)
Definition denomStep (denom0 : string) (st : bool * string) (coin : Coin)
  : bool * string :=
  let '(foundDenom0, denom1) := st in
  if String.eqb (Denom coin) denom0 then (true, denom1)
  else (foundDenom0, Denom coin).

(** The end of the body of the loop over the records, from [createPoolMsg]
    on: the pool is created, then linked to the balancer pool. *)
Definition createAndLink (k : Keeper) (poolCreatorAddress : Address k)
    (record : PoolRecordWithCFMMLink) (denom1 : string)
    (continue : Context k -> option error * Context k) (ctx : Context k)
  : option error * Context k :=
  let createPoolMsg :=
    NewMsgCreateConcentratedPool poolCreatorAddress (Denom0 record) denom1
      (TickSpacing record) (SpreadFactor record) in
  let '(created, ctx) :=
    CreateConcentratedPoolAsPoolManager k ctx createPoolMsg in
  match created with
  | inr err => (Some err, ctx)
  | inl concentratedPool =>
      let '(err, ctx) :=
        OverwriteMigrationRecordsAndRedirectDistrRecords k ctx
          {| BalancerToConcentratedPoolLinks :=
               [ {| linkBalancerPoolId := BalancerPoolId record;
                    ClPoolId := GetId k concentratedPool |} ] |} in
      match err with
      | Some e => (Some e, ctx)
      | None => continue ctx
      end
  end.

(** The loop over the records of the proposal. *)
Fixpoint handleRecords (k : Keeper) (poolCreatorAddress : Address k)
    (records : list PoolRecordWithCFMMLink) (ctx : Context k)
  : option error * Context k :=
  match records with
  | [] => (None, ctx)
  | record :: rest =>
      match GetCFMMPool k ctx (BalancerPoolId record) with
      | inr err => (Some err, ctx)
      | inl cfmmPool =>
          let poolLiquidity := GetTotalPoolLiquidity k cfmmPool ctx in
          if negb (Nat.eqb (length poolLiquidity) 2)
          then (Some "can only have 2 denoms in CL pool"%string, ctx)
          else
            let '(foundDenom0, denom1) :=
              fold_left (denomStep (Denom0 record)) poolLiquidity
                (false, ""%string) in
            if negb foundDenom0
            then (Some ("desired denom (" ++ Denom0 record ++
                        ") was not found in the pool")%string, ctx)
            else
              createAndLink k poolCreatorAddress record denom1
                (handleRecords k poolCreatorAddress rest) ctx
      end
  end.

Definition HandleCreatingCLPoolAndLinkToCFMMProposal (k : Keeper)
    (ctx : Context k)
    (p : CreateConcentratedLiquidityPoolsAndLinktoCFMMProposal)
  : option error * Context k :=
  let poolmanagerModuleAcc := GetModuleAccount k ctx (ModuleName k) in
  let poolCreatorAddress := GetAddress k poolmanagerModuleAcc in
  handleRecords k poolCreatorAddress (PoolRecordsWithCfmmLink p) ctx.

(** A keeper to run the handler with: the state is the list of the links set
    so far, pool 1 holds the two denominations uatom and uosmo, pool 2 three,
    the pools created are numbered from 10. *)
Definition sampleKeeper : Keeper :=
  {| Context := list BalancerToConcentratedPoolLink;
     Address := string;
     ModuleAccount := string;
     CFMMPool := list Coin;
     ConcentratedPool := N;
     ModuleName := "poolmanager";
     GetModuleAccount := fun _ moduleName => moduleName;
     GetAddress := fun account => account;
     GetCFMMPool := fun _ poolId =>
       if N.eqb poolId 1
       then inl [mkCoin "uatom" 5; mkCoin "uosmo" 10]
       else if N.eqb poolId 2
       then inl [mkCoin "uatom" 5; mkCoin "uion" 1; mkCoin "uosmo" 10]
       else inr "pool not found"%string;
     GetTotalPoolLiquidity := fun pool _ => pool;
     CreateConcentratedPoolAsPoolManager := fun ctx _ =>
       (inl (10 + N.of_nat (length ctx))%N, ctx);
     GetId := fun pool => pool;
     OverwriteMigrationRecordsAndRedirectDistrRecords := fun ctx records =>
       (None, ctx ++ BalancerToConcentratedPoolLinks records) |}.

Definition sampleRecord (denom0 : string) (poolId : N)
  : PoolRecordWithCFMMLink :=
  {| Denom0 := denom0; TickSpacing := 100; SpreadFactor := 1;
     BalancerPoolId := poolId |}.

End gamm.

(** * Properties *)

(** ** The definitions at work *)

Example Add_merges :
  Add [uX 1; uY 2] [mkDecCoin "uA" 5; uX (-1); uY 3] =
  [mkDecCoin "uA" 5; uY 5].
Proof. reflexivity. Qed.

Example MulDec_scales : MulDec [uX 2; uY 0] (NewDec 3) = [uX 6].
Proof. vm_compute. reflexivity. Qed.

(** A product is rounded to 18 decimals, a half to the even neighbour. *)
Example Dec_Mul_rounds :
  Dec_Mul 1 (NewDec 1 / 2) = 0 /\ Dec_Mul 3 (NewDec 1 / 2) = 2 /\
  Dec_Mul (-3) (NewDec 1 / 2) = -2 /\ Dec_Mul 7 (NewDec 1 / 4) = 2.
Proof. vm_compute. repeat split. Qed.

Example MulDec_overflows :
  MulDecOrPanic [uX (NewDec (2 ^ 200))] (NewDec (2 ^ 200)) =
  Panic "Int overflow".
Proof. vm_compute. reflexivity. Qed.

Example QuoDec_divides :
  QuoDec [wX 10; wY 3] (NewDec 200) = Ok [uX (NewDec 1 / 20); uY (15 * 10 ^ 15)].
Proof. vm_compute. reflexivity. Qed.

Example Sub_returns : Sub [uX 3; uY 1] [uX 3] = Ok [uY 1].
Proof. reflexivity. Qed.

Example Sub_panics : Sub [uX 1] [uX 2] = Panic "negative coin amount".
Proof. reflexivity. Qed.

Example getTotalRewards_sample :
  getTotalRewards wholeAccum wholePosition [uX 2] = Ok [uX 500; uY 401].
Proof. vm_compute. reflexivity. Qed.

Example getPosition_found :
  fst (getPosition sampleAccum "a") = (samplePosition, None).
Proof. reflexivity. Qed.

Example getPosition_missing :
  fst (getPosition sampleAccum "b") = (emptyRecord, Some (NoPositionError "b")).
Proof. reflexivity. Qed.

Example validateAccumulatorValue_sample :
  validateAccumulatorValue [uX 1; uY 5] [uX 3; uY 2] =
  Some (NegativeAccDifferenceError [uX 2; uY (-3)]).
Proof. vm_compute. reflexivity. Qed.

(** The laws below are those of valid sets: on a slice that is not sorted the
    merge misses a denomination. *)
Example Add_unsorted : AmountOf "uX" (Add [uY 1; uX 1] [uX 1]) = 1.
Proof. reflexivity. Qed.

(** ** Decimal arithmetic *)

Lemma precisionReuse_eq : precisionReuse = 1000000000000000000.
Proof. reflexivity. Qed.

Lemma fivePrecision_eq : fivePrecision = 500000000000000000.
Proof. reflexivity. Qed.

Lemma precisionReuse_pos : 0 < precisionReuse.
Proof. rewrite precisionReuse_eq. lia. Qed.

(** Rounding keeps the quotient or takes its successor, by the remainder. *)
Lemma chopNonNegative_cases (d : Z) :
  (chopNonNegative d = d / precisionReuse /\
   2 * (d mod precisionReuse) <= precisionReuse) \/
  (chopNonNegative d = d / precisionReuse + 1 /\
   precisionReuse <= 2 * (d mod precisionReuse)).
Proof.
  unfold chopNonNegative.
  pose proof (Z.mod_pos_bound d precisionReuse precisionReuse_pos) as Hr.
  rewrite fivePrecision_eq. rewrite precisionReuse_eq in *.
  destruct (Z.eqb_spec (d mod 1000000000000000000) 0) as [E|E].
  - left. split; [reflexivity|lia].
  - destruct (Z.compare_spec (d mod 1000000000000000000) 500000000000000000).
    + destruct (Z.even _); [left|right]; split; try reflexivity; lia.
    + left. split; [reflexivity|lia].
    + right. split; [reflexivity|lia].
Qed.

Lemma chopNonNegative_exact (x : Z) : chopNonNegative (x * precisionReuse) = x.
Proof.
  unfold chopNonNegative.
  rewrite Z.mod_mul, Z.div_mul by (rewrite precisionReuse_eq; lia).
  reflexivity.
Qed.

(** A whole number of units is not rounded. *)
Lemma chop_exact (x : Z) : chopPrecisionAndRound (x * precisionReuse) = x.
Proof.
  unfold chopPrecisionAndRound. pose proof precisionReuse_pos.
  destruct (Z.ltb_spec (x * precisionReuse) 0).
  - rewrite <- Z.mul_opp_l, chopNonNegative_exact. lia.
  - apply chopNonNegative_exact.
Qed.

Lemma chop_opp (d : Z) :
  chopPrecisionAndRound (- d) = - chopPrecisionAndRound d.
Proof.
  unfold chopPrecisionAndRound.
  destruct (Z.ltb_spec (- d) 0), (Z.ltb_spec d 0).
  - exfalso. lia.
  - rewrite Z.opp_involutive. reflexivity.
  - lia.
  - assert (d = 0) by lia. subst d. reflexivity.
Qed.

Lemma chopNonNegative_nonneg (d : Z) : 0 <= d -> 0 <= chopNonNegative d.
Proof.
  intros Hd. pose proof precisionReuse_pos.
  pose proof (Z.div_pos d precisionReuse Hd ltac:(lia)).
  destruct (chopNonNegative_cases d) as [[-> _]|[-> _]]; lia.
Qed.

Lemma chop_nonneg (d : Z) : 0 <= d -> 0 <= chopPrecisionAndRound d.
Proof.
  intros Hd. unfold chopPrecisionAndRound.
  destruct (Z.ltb_spec d 0); [lia|]. apply chopNonNegative_nonneg, Hd.
Qed.

Lemma chopNonNegative_mono (d d' : Z) :
  d <= d' -> chopNonNegative d <= chopNonNegative d'.
Proof.
  intros Hle. pose proof precisionReuse_pos as HN.
  pose proof (Z.div_le_mono d d' precisionReuse HN Hle) as Hq.
  pose proof (Z.div_mod d precisionReuse ltac:(lia)) as Hd.
  pose proof (Z.div_mod d' precisionReuse ltac:(lia)) as Hd'.
  pose proof (Z.mod_pos_bound d precisionReuse HN) as Hr.
  pose proof (Z.mod_pos_bound d' precisionReuse HN) as Hr'.
  destruct (Z.eq_dec (d / precisionReuse) (d' / precisionReuse)) as [Heq|Hne].
  - assert (Hrr : d mod precisionReuse <= d' mod precisionReuse) by nia.
    unfold chopNonNegative. rewrite <- Heq.
    rewrite fivePrecision_eq. rewrite precisionReuse_eq in *.
    destruct (Z.eqb_spec (d mod 1000000000000000000) 0),
             (Z.eqb_spec (d' mod 1000000000000000000) 0);
      destruct (Z.compare_spec (d mod 1000000000000000000) 500000000000000000),
               (Z.compare_spec (d' mod 1000000000000000000) 500000000000000000);
      try destruct (Z.even _); lia.
  - destruct (chopNonNegative_cases d) as [[-> _]|[-> _]],
             (chopNonNegative_cases d') as [[-> _]|[-> _]]; lia.
Qed.

(** Rounding keeps the order. *)
Lemma chop_mono (d d' : Z) :
  d <= d' -> chopPrecisionAndRound d <= chopPrecisionAndRound d'.
Proof.
  intros Hle. unfold chopPrecisionAndRound.
  destruct (Z.ltb_spec d 0), (Z.ltb_spec d' 0).
  - pose proof (chopNonNegative_mono (- d') (- d)). lia.
  - pose proof (chopNonNegative_nonneg (- d)).
    pose proof (chopNonNegative_nonneg d'). lia.
  - exfalso. lia.
  - apply chopNonNegative_mono, Hle.
Qed.

Lemma chopNonNegative_bound (d : Z) :
  2 * Z.abs (d - chopNonNegative d * precisionReuse) <= precisionReuse.
Proof.
  pose proof precisionReuse_pos as HN.
  pose proof (Z.div_mod d precisionReuse ltac:(lia)) as Hd.
  pose proof (Z.mod_pos_bound d precisionReuse HN) as Hr.
  destruct (chopNonNegative_cases d) as [[-> H]|[-> H]]; nia.
Qed.

(** Rounding moves a number by half a unit of the last decimal at most. *)
Lemma chop_bound (d : Z) :
  2 * Z.abs (d - chopPrecisionAndRound d * precisionReuse) <= precisionReuse.
Proof.
  unfold chopPrecisionAndRound. destruct (Z.ltb_spec d 0).
  - pose proof (chopNonNegative_bound (- d)). lia.
  - apply chopNonNegative_bound.
Qed.

Lemma Dec_Mul_0_l (d : Dec) : Dec_Mul 0 d = 0.
Proof. reflexivity. Qed.

Lemma Dec_Mul_0_r (a : Dec) : Dec_Mul a 0 = 0.
Proof. unfold Dec_Mul. rewrite Z.mul_0_r. reflexivity. Qed.

(** The product with a whole number is the product of the integers. *)
Lemma Dec_Mul_NewDec (a : Dec) (i : Z) : Dec_Mul a (NewDec i) = a * i.
Proof. unfold Dec_Mul, NewDec. rewrite Z.mul_assoc. apply chop_exact. Qed.

Lemma Dec_Mul_minusOne (a : Dec) : Dec_Mul a minusOne = - a.
Proof. unfold minusOne. rewrite Dec_Mul_NewDec. lia. Qed.

Lemma Dec_Mul_nonneg (a d : Dec) : 0 <= a -> 0 <= d -> 0 <= Dec_Mul a d.
Proof. intros Ha Hd. apply chop_nonneg. unfold Dec in *. nia. Qed.

Lemma Dec_Mul_mono (a a' d : Dec) :
  a <= a' -> 0 <= d -> Dec_Mul a d <= Dec_Mul a' d.
Proof. intros Ha Hd. apply chop_mono. unfold Dec in *. nia. Qed.

Lemma Dec_MulOverflows_0_l (d : Dec) : Dec_MulOverflows 0 d = false.
Proof. reflexivity. Qed.

Lemma Dec_MulOverflows_0_r (a : Dec) : Dec_MulOverflows a 0 = false.
Proof. unfold Dec_MulOverflows. rewrite Z.mul_0_r. reflexivity. Qed.

Lemma Dec_IsInteger_whole (a : Dec) :
  Dec_IsInteger a = true <-> a = NewDec (a / precisionReuse).
Proof.
  unfold Dec_IsInteger, NewDec. pose proof precisionReuse_pos as HN.
  rewrite Z.eqb_eq, Z.rem_divide by lia. split.
  - intros [k ->]. rewrite Z.div_mul by lia. reflexivity.
  - intros ->. eexists. reflexivity.
Qed.

Lemma Dec_IsInteger_NewDec (i : Z) : Dec_IsInteger (NewDec i) = true.
Proof.
  apply Dec_IsInteger_whole. unfold NewDec.
  rewrite Z.div_mul by (rewrite precisionReuse_eq; lia). reflexivity.
Qed.

Lemma NewDec_add (i j : Z) : NewDec i + NewDec j = NewDec (i + j).
Proof. unfold NewDec. lia. Qed.

Lemma NewDec_div (i : Z) : NewDec i / precisionReuse = i.
Proof. unfold NewDec. apply Z.div_mul. rewrite precisionReuse_eq. lia. Qed.

(** A quotient by a whole number that divides the dividend is exact. *)
Lemma Dec_Quo_whole (k t : Z) : t <> 0 -> Dec_Quo (k * t) (NewDec t) = k.
Proof.
  intros Ht. unfold Dec_Quo, NewDec. pose proof precisionReuse_pos as HN.
  replace (k * t * precisionReuse * precisionReuse)
    with (k * precisionReuse * (t * precisionReuse)) by lia.
  rewrite Z.quot_mul by lia. apply chop_exact.
Qed.

Lemma Dec_Quo_0_l (d : Dec) : Dec_Quo 0 d = 0.
Proof. destruct d; reflexivity. Qed.

Lemma Dec_Quo_nonneg (a d : Dec) : 0 <= a -> 0 < d -> 0 <= Dec_Quo a d.
Proof.
  intros Ha Hd. apply chop_nonneg. pose proof precisionReuse_pos as HN.
  apply Z.quot_pos; unfold Dec in *; nia.
Qed.

(** ** The order of denominations *)

Lemma compare_refl (s : string) : String.compare s s = Eq.
Proof.
  induction s as [|c s IH]; simpl; [reflexivity|].
  unfold Ascii.compare. rewrite N.compare_refl. exact IH.
Qed.

Lemma denom_lt_irrefl (s : string) : ~ denom_lt s s.
Proof. unfold denom_lt. rewrite compare_refl. discriminate. Qed.

Lemma denom_lt_trans (a b c : string) :
  denom_lt a b -> denom_lt b c -> denom_lt a c.
Proof.
  unfold denom_lt. intros Hab Hbc.
  assert (Hle : String.le a c).
  { transitivity b; unfold String.le, String.leb.
    - rewrite Hab. exact I.
    - rewrite Hbc. exact I. }
  unfold String.le, String.leb in Hle.
  destruct (String.compare a c) eqn:Hac; [|reflexivity|contradiction].
  apply String.compare_eq_iff in Hac. subst c.
  rewrite String.compare_antisym, Hab in Hbc. discriminate.
Qed.

Lemma compare_Gt_lt (a b : string) : String.compare a b = Gt -> denom_lt b a.
Proof.
  unfold denom_lt. intros H. rewrite String.compare_antisym, H. reflexivity.
Qed.

Lemma denom_lt_eqb (a b : string) : denom_lt a b -> String.eqb a b = false.
Proof.
  intros H. apply String.eqb_neq. intros ->. exact (denom_lt_irrefl _ H).
Qed.

Lemma denom_lt_eqb' (a b : string) : denom_lt a b -> String.eqb b a = false.
Proof.
  intros H. apply String.eqb_neq. intros ->. exact (denom_lt_irrefl _ H).
Qed.

Lemma denoms_above_trans (lo lo' : string) (coins : DecCoins) :
  denom_lt lo lo' -> denoms_above lo' coins -> denoms_above lo coins.
Proof.
  intros Hlt. induction coins as [|c r IH]; simpl; [trivial|].
  intros [H1 H2]. split; [eapply denom_lt_trans; eassumption | auto].
Qed.

Lemma AmountOf_above (lo : string) (coins : DecCoins) :
  denoms_above lo coins -> AmountOf lo coins = 0.
Proof.
  induction coins as [|c r IH]; simpl; [reflexivity|].
  intros [H1 H2]. rewrite (denom_lt_eqb' _ _ H1). auto.
Qed.

Lemma AmountOf_below (lo denom : string) (coins : DecCoins) :
  denoms_above lo coins -> denom_lt denom lo -> AmountOf denom coins = 0.
Proof.
  intros Ha Hlt. apply AmountOf_above. eapply denoms_above_trans; eassumption.
Qed.

Lemma Dec_IsZero_true (a : Dec) : Dec_IsZero a = true <-> a = 0.
Proof. unfold Dec_IsZero. apply Z.eqb_eq. Qed.

Lemma Dec_IsZero_false (a : Dec) : Dec_IsZero a = false <-> a <> 0.
Proof. unfold Dec_IsZero. apply Z.eqb_neq. Qed.

(** *** removeZeroDecCoins *)

Lemma removeZero_above (lo : string) (coins : DecCoins) :
  denoms_above lo coins -> denoms_above lo (removeZeroDecCoins coins).
Proof.
  induction coins as [|c r IH]; simpl; [trivial|].
  intros [H1 H2]. destruct (DecCoin_IsZero c); simpl; auto.
Qed.

Lemma removeZero_sorted (coins : DecCoins) :
  sorted_denoms coins -> sorted_denoms (removeZeroDecCoins coins).
Proof.
  induction coins as [|c r IH]; simpl; [trivial|].
  intros [H1 H2]. destruct (DecCoin_IsZero c); simpl; auto.
  split; auto using removeZero_above.
Qed.

Lemma removeZero_AmountOf (denom : string) (coins : DecCoins) :
  sorted_denoms coins ->
  AmountOf denom (removeZeroDecCoins coins) = AmountOf denom coins.
Proof.
  induction coins as [|c r IH]; simpl; [reflexivity|].
  intros [H1 H2]. unfold DecCoin_IsZero.
  destruct (Dec_IsZero (Amount c)) eqn:Hz; simpl.
  - rewrite (IH H2). destruct (String.eqb_spec (Denom c) denom) as [<-|]; auto.
    apply Dec_IsZero_true in Hz. rewrite Hz. apply AmountOf_above, H1.
  - rewrite (IH H2). reflexivity.
Qed.

Lemma removeZero_no_zero (coins : DecCoins) :
  no_zero_coin (removeZeroDecCoins coins).
Proof.
  unfold no_zero_coin, removeZeroDecCoins.
  induction coins as [|c r IH]; simpl; [constructor|].
  unfold DecCoin_IsZero at 1.
  destruct (Dec_IsZero (Amount c)) eqn:Hz; simpl; auto.
  constructor; auto. apply Dec_IsZero_false, Hz.
Qed.

(** *** safeAdd *)

Lemma safeAdd_nil_r (coins : DecCoins) :
  safeAdd coins [] = removeZeroDecCoins coins.
Proof. destruct coins; reflexivity. Qed.

Lemma safeAdd_cons_cons (coinA : DecCoin) (restA : DecCoins)
    (coinB : DecCoin) (restB : DecCoins) :
  safeAdd (coinA :: restA) (coinB :: restB) =
  match String.compare (Denom coinA) (Denom coinB) with
  | Lt => if DecCoin_IsZero coinA
          then safeAdd restA (coinB :: restB)
          else coinA :: safeAdd restA (coinB :: restB)
  | Eq => if DecCoin_IsZero (DecCoin_Add coinA coinB)
          then safeAdd restA restB
          else DecCoin_Add coinA coinB :: safeAdd restA restB
  | Gt => if DecCoin_IsZero coinB
          then safeAdd (coinA :: restA) restB
          else coinB :: safeAdd (coinA :: restA) restB
  end.
Proof. reflexivity. Qed.

Lemma safeAdd_nil_l (coinsB : DecCoins) :
  safeAdd [] coinsB = removeZeroDecCoins coinsB.
Proof. reflexivity. Qed.

Arguments safeAdd : simpl never.

(** One induction scheme for the merge, used by all its lemmas. *)
Lemma safeAdd_ind (P : DecCoins -> DecCoins -> DecCoins -> Prop) :
  (forall coinsB, P [] coinsB (removeZeroDecCoins coinsB)) ->
  (forall coinA restA,
      P (coinA :: restA) [] (removeZeroDecCoins (coinA :: restA))) ->
  (forall coinA restA coinB restB,
      String.compare (Denom coinA) (Denom coinB) = Lt ->
      P restA (coinB :: restB) (safeAdd restA (coinB :: restB)) ->
      P (coinA :: restA) (coinB :: restB)
        (if DecCoin_IsZero coinA
         then safeAdd restA (coinB :: restB)
         else coinA :: safeAdd restA (coinB :: restB))) ->
  (forall coinA restA coinB restB,
      Denom coinA = Denom coinB ->
      P restA restB (safeAdd restA restB) ->
      P (coinA :: restA) (coinB :: restB)
        (if DecCoin_IsZero (DecCoin_Add coinA coinB)
         then safeAdd restA restB
         else DecCoin_Add coinA coinB :: safeAdd restA restB)) ->
  (forall coinA restA coinB restB,
      String.compare (Denom coinA) (Denom coinB) = Gt ->
      P (coinA :: restA) restB (safeAdd (coinA :: restA) restB) ->
      P (coinA :: restA) (coinB :: restB)
        (if DecCoin_IsZero coinB
         then safeAdd (coinA :: restA) restB
         else coinB :: safeAdd (coinA :: restA) restB)) ->
  forall coins coinsB, P coins coinsB (safeAdd coins coinsB).
Proof.
  intros Hnil Hnil' Hlt Heq Hgt.
  induction coins as [|coinA restA IHA]; intros coinsB; [apply Hnil|].
  induction coinsB as [|coinB restB IHB]; [apply Hnil'|].
  rewrite safeAdd_cons_cons.
  destruct (String.compare (Denom coinA) (Denom coinB)) eqn:Hc.
  - apply Heq; [apply String.compare_eq_iff, Hc | apply IHA].
  - apply Hlt; [exact Hc | apply IHA].
  - apply Hgt; [exact Hc | apply IHB].
Qed.

Lemma safeAdd_above (lo : string) (coins coinsB : DecCoins) :
  denoms_above lo coins -> denoms_above lo coinsB ->
  denoms_above lo (safeAdd coins coinsB).
Proof.
  pattern coins, coinsB, (safeAdd coins coinsB). apply safeAdd_ind; clear.
  - intros b _ Hb. auto using removeZero_above.
  - intros a ra Ha _. auto using removeZero_above.
  - intros a ra b rb _ IH [Ha Hra] Hb. destruct (DecCoin_IsZero a); simpl; auto.
  - intros a ra b rb _ IH [Ha Hra] [Hb Hrb].
    destruct (DecCoin_IsZero _); simpl; auto.
  - intros a ra b rb _ IH Ha [Hb Hrb]. destruct (DecCoin_IsZero b); simpl; auto.
Qed.

Lemma safeAdd_sorted (coins coinsB : DecCoins) :
  sorted_denoms coins -> sorted_denoms coinsB ->
  sorted_denoms (safeAdd coins coinsB).
Proof.
  pattern coins, coinsB, (safeAdd coins coinsB). apply safeAdd_ind; clear.
  - intros b _ Hb. auto using removeZero_sorted.
  - intros a ra Ha _. auto using removeZero_sorted.
  - intros a ra b rb Hc IH [Ha Hra] Hb.
    destruct (DecCoin_IsZero a); simpl; auto.
    split; auto. apply safeAdd_above; auto.
    destruct Hb as [Hb _]. split; [exact Hc|].
    eapply denoms_above_trans; eassumption.
  - intros a ra b rb Hc IH [Ha Hra] [Hb Hrb].
    destruct (DecCoin_IsZero _); simpl; auto.
    split; auto. apply safeAdd_above; auto. rewrite Hc. exact Hb.
  - intros a ra b rb Hc%compare_Gt_lt IH Ha [Hb Hrb].
    destruct (DecCoin_IsZero b); simpl; auto.
    split; auto. apply safeAdd_above; auto.
    destruct Ha as [Ha _]. split; [exact Hc|].
    eapply denoms_above_trans; eassumption.
Qed.

Lemma safeAdd_no_zero (coins coinsB : DecCoins) :
  no_zero_coin (safeAdd coins coinsB).
Proof.
  pattern coins, coinsB, (safeAdd coins coinsB). apply safeAdd_ind; clear.
  - intros. apply removeZero_no_zero.
  - intros. apply removeZero_no_zero.
  - intros a ra b rb _ IH. unfold DecCoin_IsZero.
    destruct (Dec_IsZero (Amount a)) eqn:Hz; auto.
    constructor; auto. apply Dec_IsZero_false, Hz.
  - intros a ra b rb _ IH. unfold DecCoin_IsZero.
    destruct (Dec_IsZero (Amount (DecCoin_Add a b))) eqn:Hz; auto.
    constructor; auto. apply Dec_IsZero_false, Hz.
  - intros a ra b rb _ IH. unfold DecCoin_IsZero.
    destruct (Dec_IsZero (Amount b)) eqn:Hz; auto.
    constructor; auto. apply Dec_IsZero_false, Hz.
Qed.

(** Addition is per denomination, a missing denomination counting as zero. *)
Lemma safeAdd_AmountOf (denom : string) (coins coinsB : DecCoins) :
  sorted_denoms coins -> sorted_denoms coinsB ->
  AmountOf denom (safeAdd coins coinsB) =
  AmountOf denom coins + AmountOf denom coinsB.
Proof.
  pattern coins, coinsB, (safeAdd coins coinsB).
  apply safeAdd_ind; clear - denom.
  - intros b _ Hb. rewrite removeZero_AmountOf by assumption. reflexivity.
  - intros a ra Ha _. rewrite removeZero_AmountOf by assumption.
    simpl. unfold ZeroDec. lia.
  - intros a ra b rb Hc IH [Ha Hra] Hb.
    assert (Hb' : denoms_above (Denom a) (b :: rb)).
    { destruct Hb as [Hb _]. split; [exact Hc|].
      eapply denoms_above_trans; eassumption. }
    specialize (IH Hra Hb).
    unfold DecCoin_IsZero. destruct (Dec_IsZero (Amount a)) eqn:Hz.
    + rewrite IH. cbn [AmountOf].
      destruct (String.eqb_spec (Denom a) denom) as [<-|]; [|reflexivity].
      apply Dec_IsZero_true in Hz. rewrite Hz, (AmountOf_above _ ra Ha).
      reflexivity.
    + cbn [AmountOf]. rewrite IH.
      destruct (String.eqb_spec (Denom a) denom) as [<-|]; [|reflexivity].
      pose proof (AmountOf_above _ _ Hb') as E. cbn [AmountOf] in E.
      rewrite E. lia.
  - intros a ra b rb Hc IH [Ha Hra] [Hb Hrb].
    specialize (IH Hra Hrb).
    unfold DecCoin_IsZero. cbn [AmountOf]. rewrite <- Hc.
    destruct (Dec_IsZero (Amount (DecCoin_Add a b))) eqn:Hz.
    + rewrite IH.
      destruct (String.eqb_spec (Denom a) denom) as [<-|]; [|reflexivity].
      apply Dec_IsZero_true in Hz. simpl in Hz. unfold Dec_Add in Hz.
      rewrite (AmountOf_above _ ra Ha).
      rewrite Hc in *. rewrite (AmountOf_above _ rb Hb). lia.
    + cbn [AmountOf DecCoin_Add Denom Amount]. rewrite IH.
      destruct (String.eqb_spec (Denom a) denom) as [<-|]; reflexivity.
  - intros a ra b rb Hc%compare_Gt_lt IH Ha [Hb Hrb].
    assert (Ha' : denoms_above (Denom b) (a :: ra)).
    { destruct Ha as [Ha _]. split; [exact Hc|].
      eapply denoms_above_trans; eassumption. }
    specialize (IH Ha Hrb).
    unfold DecCoin_IsZero. destruct (Dec_IsZero (Amount b)) eqn:Hz.
    + rewrite IH. cbn [AmountOf].
      destruct (String.eqb_spec (Denom b) denom) as [<-|]; [|reflexivity].
      apply Dec_IsZero_true in Hz. rewrite Hz, (AmountOf_above _ rb Hb).
      reflexivity.
    + cbn [AmountOf] in *. rewrite IH.
      destruct (String.eqb_spec (Denom b) denom) as [<-|]; [|reflexivity].
      pose proof (AmountOf_above _ _ Ha') as E. cbn [AmountOf] in E.
      rewrite E. lia.
Qed.

(** *** negative, IsAnyNegative, SafeSub, Sub *)

Lemma negative_above (lo : string) (coins : DecCoins) :
  denoms_above lo coins -> denoms_above lo (negative coins).
Proof.
  induction coins as [|c r IH]; simpl; [trivial|]. intros [H1 H2]. auto.
Qed.

Lemma negative_sorted (coins : DecCoins) :
  sorted_denoms coins -> sorted_denoms (negative coins).
Proof.
  induction coins as [|c r IH]; simpl; [trivial|].
  intros [H1 H2]. split; auto. apply negative_above, H1.
Qed.

Lemma negative_AmountOf (denom : string) (coins : DecCoins) :
  AmountOf denom (negative coins) = - AmountOf denom coins.
Proof.
  induction coins as [|c r IH]; simpl; [reflexivity|].
  destruct (String.eqb (Denom c) denom); [reflexivity | exact IH].
Qed.

Lemma denoms_above_In (lo : string) (coin : DecCoin) (coins : DecCoins) :
  denoms_above lo coins -> In coin coins -> denom_lt lo (Denom coin).
Proof.
  induction coins as [|c r IH]; simpl; [contradiction|].
  intros [H1 H2] [->|Hin]; auto.
Qed.

Lemma AmountOf_In (coin : DecCoin) (coins : DecCoins) :
  sorted_denoms coins -> In coin coins ->
  AmountOf (Denom coin) coins = Amount coin.
Proof.
  induction coins as [|c r IH]; simpl; [contradiction|].
  intros [H1 H2] [->|Hin].
  - rewrite String.eqb_refl. reflexivity.
  - destruct (String.eqb_spec (Denom c) (Denom coin)) as [E|]; [|auto].
    exfalso. rewrite E in H1.
    exact (denom_lt_irrefl _ (denoms_above_In _ _ _ H1 Hin)).
Qed.

Lemma IsAnyNegative_true (coins : DecCoins) :
  sorted_denoms coins ->
  IsAnyNegative coins = true <-> exists denom, AmountOf denom coins < 0.
Proof.
  intros Hs. unfold IsAnyNegative. rewrite existsb_exists. split.
  - intros (coin & Hin & Hneg). exists (Denom coin).
    rewrite (AmountOf_In _ _ Hs Hin).
    unfold DecCoin_IsNegative, Dec_IsNegative in Hneg. lia.
  - intros (denom & Hneg). clear Hs.
    induction coins as [|c r IH]; simpl in Hneg; [unfold ZeroDec in Hneg; lia|].
    destruct (String.eqb (Denom c) denom).
    + exists c. split; [left; reflexivity|].
      unfold DecCoin_IsNegative, Dec_IsNegative. lia.
    + destruct (IH Hneg) as (coin & Hin & Hc).
      exists coin. split; [right|]; auto.
Qed.

Lemma IsAnyNegative_false (coins : DecCoins) :
  sorted_denoms coins ->
  IsAnyNegative coins = false <-> forall denom, 0 <= AmountOf denom coins.
Proof.
  intros Hs. pose proof (IsAnyNegative_true coins Hs) as [H1 H2]. split.
  - intros Hf denom.
    destruct (Z_lt_le_dec (AmountOf denom coins) 0) as [Hlt|]; auto.
    rewrite H2 in Hf by eauto. discriminate.
  - intros Hall. destruct (IsAnyNegative coins); [|reflexivity].
    destruct (H1 eq_refl) as (denom & Hneg). specialize (Hall denom). lia.
Qed.

Lemma SafeSub_sorted (coins coinsB : DecCoins) :
  sorted_denoms coins -> sorted_denoms coinsB ->
  sorted_denoms (fst (SafeSub coins coinsB)).
Proof. intros Ha Hb. simpl. auto using safeAdd_sorted, negative_sorted. Qed.

(** Subtraction is per denomination, a missing denomination counting as
    zero. *)
Lemma SafeSub_AmountOf (denom : string) (coins coinsB : DecCoins) :
  sorted_denoms coins -> sorted_denoms coinsB ->
  AmountOf denom (fst (SafeSub coins coinsB)) =
  AmountOf denom coins - AmountOf denom coinsB.
Proof.
  intros Ha Hb. simpl.
  rewrite safeAdd_AmountOf, negative_AmountOf by auto using negative_sorted.
  lia.
Qed.

Lemma SafeSub_negative (coins coinsB : DecCoins) :
  sorted_denoms coins -> sorted_denoms coinsB ->
  snd (SafeSub coins coinsB) = true <->
  exists denom, AmountOf denom coins < AmountOf denom coinsB.
Proof.
  intros Ha Hb. cbn [snd SafeSub].
  rewrite IsAnyNegative_true by auto using safeAdd_sorted, negative_sorted.
  split; intros (denom & H); exists denom;
    rewrite safeAdd_AmountOf, negative_AmountOf in *
      by auto using negative_sorted;
    lia.
Qed.

Lemma Sub_Ok (coins coinsB : DecCoins) :
  sorted_denoms coins -> sorted_denoms coinsB ->
  coins_le coinsB coins ->
  Sub coins coinsB = Ok (fst (SafeSub coins coinsB)).
Proof.
  intros Ha Hb Hle. unfold Sub.
  pose proof (SafeSub_negative coins coinsB Ha Hb) as [H1 _].
  destruct (SafeSub coins coinsB) as [diff hasNeg]. cbn [fst snd] in *.
  destruct hasNeg; [|reflexivity].
  destruct (H1 eq_refl) as (denom & Hlt). specialize (Hle denom). lia.
Qed.

Lemma Sub_Panic (coins coinsB : DecCoins) :
  sorted_denoms coins -> sorted_denoms coinsB ->
  (exists denom, AmountOf denom coins < AmountOf denom coinsB) ->
  Sub coins coinsB = Panic "negative coin amount".
Proof.
  intros Ha Hb Hex. unfold Sub.
  pose proof (SafeSub_negative coins coinsB Ha Hb) as [_ H2].
  destruct (SafeSub coins coinsB) as [diff hasNeg]. cbn [fst snd] in *.
  rewrite (H2 Hex). reflexivity.
Qed.

Lemma coins_le_dec (a b : DecCoins) :
  sorted_denoms a -> sorted_denoms b ->
  coins_le a b \/ exists denom, AmountOf denom b < AmountOf denom a.
Proof.
  intros Ha Hb. pose proof (SafeSub_negative b a Hb Ha) as [H1 H2].
  destruct (snd (SafeSub b a)) eqn:E; [right; auto|left].
  intros denom.
  destruct (Z_lt_le_dec (AmountOf denom b) (AmountOf denom a)); auto.
  assert (false = true) by (apply H2; eauto). discriminate.
Qed.

(** *** MulDec *)

Lemma MulDec_fold (coins : DecCoins) (d : Dec) :
  MulDec coins d = fold_left (mulStep d) coins [].
Proof. reflexivity. Qed.

Lemma mulStep_sorted (d : Dec) (res : DecCoins) (coin : DecCoin) :
  sorted_denoms res -> sorted_denoms (mulStep d res coin).
Proof.
  intros Hs. unfold mulStep. destruct (DecCoin_IsZero _); auto.
  apply safeAdd_sorted; simpl; auto.
Qed.

Lemma mulStep_no_zero (d : Dec) (res : DecCoins) (coin : DecCoin) :
  no_zero_coin res -> no_zero_coin (mulStep d res coin).
Proof.
  intros Hs. unfold mulStep. destruct (DecCoin_IsZero _); auto.
  apply safeAdd_no_zero.
Qed.

Lemma mulStep_AmountOf (denom : string) (d : Dec) (res : DecCoins)
    (coin : DecCoin) :
  sorted_denoms res ->
  AmountOf denom (mulStep d res coin) =
  AmountOf denom res +
  (if String.eqb (Denom coin) denom then Dec_Mul (Amount coin) d else 0).
Proof.
  intros Hs. unfold mulStep, DecCoin_IsZero. cbn [Amount].
  destruct (Dec_IsZero (Dec_Mul (Amount coin) d)) eqn:Hz.
  - apply Dec_IsZero_true in Hz. rewrite Hz.
    destruct (String.eqb _ _); lia.
  - unfold Add. rewrite safeAdd_AmountOf by (simpl; auto). reflexivity.
Qed.

Lemma fold_mulStep_sorted (d : Dec) (coins res : DecCoins) :
  sorted_denoms res -> sorted_denoms (fold_left (mulStep d) coins res).
Proof.
  revert res. induction coins as [|c r IH]; simpl; auto using mulStep_sorted.
Qed.

Lemma fold_mulStep_no_zero (d : Dec) (coins res : DecCoins) :
  no_zero_coin res -> no_zero_coin (fold_left (mulStep d) coins res).
Proof.
  revert res. induction coins as [|c r IH]; simpl; auto using mulStep_no_zero.
Qed.

Lemma fold_mulStep_AmountOf (denom : string) (d : Dec) (coins res : DecCoins) :
  sorted_denoms res -> sorted_denoms coins ->
  AmountOf denom (fold_left (mulStep d) coins res) =
  AmountOf denom res + Dec_Mul (AmountOf denom coins) d.
Proof.
  revert res. induction coins as [|c r IH]; intros res Hres Hs.
  - simpl. unfold ZeroDec. rewrite Dec_Mul_0_l. lia.
  - destruct Hs as [H1 H2]. cbn [fold_left AmountOf].
    rewrite IH by auto using mulStep_sorted.
    rewrite mulStep_AmountOf by assumption.
    destruct (String.eqb_spec (Denom c) denom) as [<-|]; [|lia].
    rewrite (AmountOf_above _ r H1), Dec_Mul_0_l. lia.
Qed.

Lemma MulDec_sorted (coins : DecCoins) (d : Dec) :
  sorted_denoms (MulDec coins d).
Proof. rewrite MulDec_fold. apply fold_mulStep_sorted. exact I. Qed.

Lemma MulDec_no_zero (coins : DecCoins) (d : Dec) :
  no_zero_coin (MulDec coins d).
Proof. rewrite MulDec_fold. apply fold_mulStep_no_zero. constructor. Qed.

(** The scalar product is per denomination. *)
Lemma MulDec_AmountOf (denom : string) (coins : DecCoins) (d : Dec) :
  sorted_denoms coins ->
  AmountOf denom (MulDec coins d) = Dec_Mul (AmountOf denom coins) d.
Proof.
  intros Hs. rewrite MulDec_fold, fold_mulStep_AmountOf by (simpl; auto).
  reflexivity.
Qed.

(** The product panics when the product of some denomination overflows. *)
Lemma MulDecOverflows_true (coins : DecCoins) (d : Dec) :
  sorted_denoms coins ->
  MulDecOverflows coins d = true <->
  exists denom, Dec_MulOverflows (AmountOf denom coins) d = true.
Proof.
  intros Hs. unfold MulDecOverflows. rewrite existsb_exists. split.
  - intros (coin & Hin & Hov). exists (Denom coin).
    rewrite (AmountOf_In coin coins Hs Hin). exact Hov.
  - intros (denom & Hov).
    induction coins as [|c r IH]; cbn [AmountOf] in Hov.
    + unfold ZeroDec in Hov. rewrite Dec_MulOverflows_0_l in Hov.
      discriminate.
    + destruct Hs as [_ Hs]. destruct (String.eqb (Denom c) denom).
      * exists c. split; [left; reflexivity | exact Hov].
      * destruct (IH Hs Hov) as (coin & Hin & Hc). exists coin.
        split; [right; exact Hin | exact Hc].
Qed.

Lemma MulDecOverflows_false (coins : DecCoins) (d : Dec) :
  sorted_denoms coins ->
  MulDecOverflows coins d = false <->
  forall denom, Dec_MulOverflows (AmountOf denom coins) d = false.
Proof.
  intros Hs. pose proof (MulDecOverflows_true coins d Hs) as [H1 H2]. split.
  - intros Hf denom.
    destruct (Dec_MulOverflows (AmountOf denom coins) d) eqn:E; [|reflexivity].
    rewrite H2 in Hf by eauto. discriminate.
  - intros Hall. destruct (MulDecOverflows coins d); [|reflexivity].
    destruct (H1 eq_refl) as (denom & Hov). rewrite Hall in Hov. discriminate.
Qed.

Lemma MulDecOverflows_0_r (coins : DecCoins) : MulDecOverflows coins 0 = false.
Proof.
  unfold MulDecOverflows. induction coins as [|c r IH]; [reflexivity|].
  cbn [existsb]. rewrite Dec_MulOverflows_0_r, IH. reflexivity.
Qed.

Lemma MulDecOrPanic_Ok (coins : DecCoins) (d : Dec) :
  MulDecOverflows coins d = false ->
  MulDecOrPanic coins d = Ok (MulDec coins d).
Proof. intros H. unfold MulDecOrPanic. rewrite H. reflexivity. Qed.

Lemma MulDecOrPanic_Panic (coins : DecCoins) (d : Dec) :
  MulDecOverflows coins d = true ->
  MulDecOrPanic coins d = Panic "Int overflow".
Proof. intros H. unfold MulDecOrPanic. rewrite H. reflexivity. Qed.

(** *** QuoDec *)

Lemma quoStep_sorted (d : Dec) (res : DecCoins) (coin : DecCoin) :
  sorted_denoms res -> sorted_denoms (quoStep d res coin).
Proof.
  intros Hs. unfold quoStep. destruct (DecCoin_IsZero _); auto.
  apply safeAdd_sorted; simpl; auto.
Qed.

Lemma quoStep_AmountOf (denom : string) (d : Dec) (res : DecCoins)
    (coin : DecCoin) :
  sorted_denoms res ->
  AmountOf denom (quoStep d res coin) =
  AmountOf denom res +
  (if String.eqb (Denom coin) denom then Dec_Quo (Amount coin) d else 0).
Proof.
  intros Hs. unfold quoStep, DecCoin_IsZero. cbn [Amount].
  destruct (Dec_IsZero (Dec_Quo (Amount coin) d)) eqn:Hz.
  - apply Dec_IsZero_true in Hz. rewrite Hz.
    destruct (String.eqb _ _); lia.
  - unfold Add. rewrite safeAdd_AmountOf by (simpl; auto). reflexivity.
Qed.

Lemma fold_quoStep_sorted (d : Dec) (coins res : DecCoins) :
  sorted_denoms res -> sorted_denoms (fold_left (quoStep d) coins res).
Proof.
  revert res. induction coins as [|c r IH]; simpl; auto using quoStep_sorted.
Qed.

Lemma fold_quoStep_AmountOf (denom : string) (d : Dec) (coins res : DecCoins) :
  sorted_denoms res -> sorted_denoms coins ->
  AmountOf denom (fold_left (quoStep d) coins res) =
  AmountOf denom res + Dec_Quo (AmountOf denom coins) d.
Proof.
  revert res. induction coins as [|c r IH]; intros res Hres Hs.
  - simpl. unfold ZeroDec. rewrite Dec_Quo_0_l. lia.
  - destruct Hs as [H1 H2]. cbn [fold_left AmountOf].
    rewrite IH by auto using quoStep_sorted.
    rewrite quoStep_AmountOf by assumption.
    destruct (String.eqb_spec (Denom c) denom) as [<-|]; [|lia].
    rewrite (AmountOf_above _ r H1), Dec_Quo_0_l. lia.
Qed.

(** A quotient that [QuoDec] returns is sorted and per denomination. *)
Lemma QuoDec_Ok (coins : DecCoins) (d : Dec) (quotient : DecCoins) :
  sorted_denoms coins ->
  QuoDec coins d = Ok quotient ->
  d <> 0 /\ sorted_denoms quotient /\
  forall denom, AmountOf denom quotient = Dec_Quo (AmountOf denom coins) d.
Proof.
  intros Hs. unfold QuoDec.
  destruct (Dec_IsZero d) eqn:Hz; [discriminate|].
  destruct (existsb _ coins); [discriminate|].
  intros Hret. injection Hret as <-.
  split; [apply Dec_IsZero_false, Hz|]. split.
  - apply fold_quoStep_sorted. exact I.
  - intros denom. rewrite fold_quoStep_AmountOf by (simpl; auto). reflexivity.
Qed.

(** *** Canonical form *)

Lemma no_zero_coin_all_zero (coins : DecCoins) :
  no_zero_coin coins -> (forall denom, AmountOf denom coins = 0) -> coins = [].
Proof.
  destruct coins as [|c r]; [reflexivity|].
  intros Hnz Hall. inversion Hnz as [|? ? Hc _]; subst.
  specialize (Hall (Denom c)). simpl in Hall.
  rewrite String.eqb_refl in Hall. contradiction.
Qed.

(** ** The store helpers *)

Lemma withStore_same (accum : AccumulatorObject) :
  withStore accum (store accum) = accum.
Proof. destruct accum; reflexivity. Qed.

Lemma getPosition_lookup (accum : AccumulatorObject) (index : string) :
  getPosition accum index =
  match store accum !! formatPositionPrefixKey (name accum) index with
  | Some position => ((position, None), accum)
  | None => ((emptyRecord, Some (NoPositionError index)), accum)
  end.
Proof.
  unfold getPosition, osmoutils.Get.
  destruct (store accum !! formatPositionPrefixKey (name accum) index);
    cbn; rewrite withStore_same; reflexivity.
Qed.

Lemma initOrUpdatePosition_store (accum : AccumulatorObject)
    (accumulatorValue : DecCoins) (index : string) (numShareUnits : Dec)
    (unclaimedRewards : DecCoins) (options : option accum_Options) :
  store (initOrUpdatePosition accum accumulatorValue index numShareUnits
           unclaimedRewards options) =
  <[formatPositionPrefixKey (name accum) index :=
      mkPositionRecord numShareUnits accumulatorValue unclaimedRewards options]>
    (store accum).
Proof. reflexivity. Qed.

(** ** getTotalRewards *)

Section TotalRewards.
Variable accum : AccumulatorObject.
Variable position : PositionRecord.
Variable feeGrowthOutside : DecCoins.

Hypothesis value_sorted : sorted_denoms (value accum).
Hypothesis init_sorted : sorted_denoms (InitAccumValue position).
Hypothesis growth_sorted : sorted_denoms feeGrowthOutside.

Lemma base_sorted :
  sorted_denoms (Add (InitAccumValue position) feeGrowthOutside).
Proof. apply safeAdd_sorted; assumption. Qed.

Lemma base_AmountOf (denom : string) :
  AmountOf denom (Add (InitAccumValue position) feeGrowthOutside) =
  AmountOf denom (InitAccumValue position) + AmountOf denom feeGrowthOutside.
Proof. apply safeAdd_AmountOf; assumption. Qed.

Lemma diff_sorted :
  sorted_denoms
    (fst (SafeSub (value accum)
            (Add (InitAccumValue position) feeGrowthOutside))).
Proof. apply SafeSub_sorted; auto using base_sorted. Qed.

Lemma diff_AmountOf (denom : string) :
  AmountOf denom
    (fst (SafeSub (value accum)
            (Add (InitAccumValue position) feeGrowthOutside))) =
  AmountOf denom (value accum) -
  (AmountOf denom (InitAccumValue position) + AmountOf denom feeGrowthOutside).
Proof.
  rewrite SafeSub_AmountOf by auto using base_sorted.
  rewrite base_AmountOf. reflexivity.
Qed.

Lemma getTotalRewards_Ok :
  (forall denom,
      AmountOf denom (InitAccumValue position) +
      AmountOf denom feeGrowthOutside <= AmountOf denom (value accum)) ->
  (forall denom,
      Dec_MulOverflows
        (AmountOf denom (value accum) -
         (AmountOf denom (InitAccumValue position) +
          AmountOf denom feeGrowthOutside))
        (NumShares position) = false) ->
  getTotalRewards accum position feeGrowthOutside =
  Ok (Add (UnclaimedRewards position)
        (MulDec
          (fst (SafeSub (value accum)
                  (Add (InitAccumValue position) feeGrowthOutside)))
          (NumShares position))).
Proof.
  intros Hle Hno. unfold getTotalRewards.
  rewrite Sub_Ok; [| assumption | apply base_sorted |].
  - cbn [bind]. rewrite MulDecOrPanic_Ok; [reflexivity|].
    apply MulDecOverflows_false; [apply diff_sorted|].
    intros denom. rewrite diff_AmountOf. apply Hno.
  - intros denom. rewrite base_AmountOf. apply Hle.
Qed.

Lemma getTotalRewards_Panic :
  (exists denom,
      AmountOf denom (value accum) <
      AmountOf denom (InitAccumValue position) +
      AmountOf denom feeGrowthOutside) ->
  getTotalRewards accum position feeGrowthOutside =
  Panic "negative coin amount".
Proof.
  intros (denom & Hlt). unfold getTotalRewards.
  rewrite Sub_Panic; [reflexivity | assumption | apply base_sorted |].
  exists denom. rewrite base_AmountOf. exact Hlt.
Qed.

Lemma getTotalRewards_overflow :
  (forall denom,
      AmountOf denom (InitAccumValue position) +
      AmountOf denom feeGrowthOutside <= AmountOf denom (value accum)) ->
  (exists denom,
      Dec_MulOverflows
        (AmountOf denom (value accum) -
         (AmountOf denom (InitAccumValue position) +
          AmountOf denom feeGrowthOutside))
        (NumShares position) = true) ->
  getTotalRewards accum position feeGrowthOutside = Panic "Int overflow".
Proof.
  intros Hle (denom & Hov). unfold getTotalRewards.
  rewrite Sub_Ok; [| assumption | apply base_sorted |].
  - cbn [bind]. rewrite MulDecOrPanic_Panic; [reflexivity|].
    apply MulDecOverflows_true; [apply diff_sorted|].
    exists denom. rewrite diff_AmountOf. exact Hov.
  - intros denom'. rewrite base_AmountOf. apply Hle.
Qed.

(** The three ways a call ends. *)
Lemma getTotalRewards_cases :
  ((exists denom,
       AmountOf denom (value accum) <
       AmountOf denom (InitAccumValue position) +
       AmountOf denom feeGrowthOutside) /\
   getTotalRewards accum position feeGrowthOutside =
   Panic "negative coin amount") \/
  ((forall denom,
       AmountOf denom (InitAccumValue position) +
       AmountOf denom feeGrowthOutside <= AmountOf denom (value accum)) /\
   (exists denom,
       Dec_MulOverflows
         (AmountOf denom (value accum) -
          (AmountOf denom (InitAccumValue position) +
           AmountOf denom feeGrowthOutside))
         (NumShares position) = true) /\
   getTotalRewards accum position feeGrowthOutside = Panic "Int overflow") \/
  ((forall denom,
       AmountOf denom (InitAccumValue position) +
       AmountOf denom feeGrowthOutside <= AmountOf denom (value accum)) /\
   (forall denom,
       Dec_MulOverflows
         (AmountOf denom (value accum) -
          (AmountOf denom (InitAccumValue position) +
           AmountOf denom feeGrowthOutside))
         (NumShares position) = false) /\
   getTotalRewards accum position feeGrowthOutside =
   Ok (Add (UnclaimedRewards position)
         (MulDec
            (fst (SafeSub (value accum)
                    (Add (InitAccumValue position) feeGrowthOutside)))
            (NumShares position)))).
Proof.
  destruct (coins_le_dec (Add (InitAccumValue position) feeGrowthOutside)
              (value accum) base_sorted value_sorted) as [Hle|(denom & Hlt)].
  - assert (Hpre : forall denom,
               AmountOf denom (InitAccumValue position) +
               AmountOf denom feeGrowthOutside <= AmountOf denom (value accum)).
    { intros denom. rewrite <- base_AmountOf. apply Hle. }
    right.
    destruct (MulDecOverflows
                (fst (SafeSub (value accum)
                        (Add (InitAccumValue position) feeGrowthOutside)))
                (NumShares position)) eqn:Hov.
    + left. apply MulDecOverflows_true in Hov as (denom & Hov);
        [|apply diff_sorted].
      rewrite diff_AmountOf in Hov.
      split; [exact Hpre|]. split; [eauto|].
      apply getTotalRewards_overflow; eauto.
    + right.
      assert (Hno : forall denom,
                 Dec_MulOverflows
                   (AmountOf denom (value accum) -
                    (AmountOf denom (InitAccumValue position) +
                     AmountOf denom feeGrowthOutside))
                   (NumShares position) = false).
      { intros denom. rewrite <- diff_AmountOf. revert denom.
        apply MulDecOverflows_false; [apply diff_sorted | exact Hov]. }
      split; [exact Hpre|]. split; [exact Hno|].
      apply getTotalRewards_Ok; assumption.
  - left. rewrite base_AmountOf in Hlt. split; [eauto|].
    apply getTotalRewards_Panic. eauto.
Qed.

Lemma rewards_sorted :
  sorted_denoms (UnclaimedRewards position) ->
  sorted_denoms
    (Add (UnclaimedRewards position)
       (MulDec
          (fst (SafeSub (value accum)
                  (Add (InitAccumValue position) feeGrowthOutside)))
          (NumShares position))).
Proof. intros Hu. apply safeAdd_sorted; [assumption | apply MulDec_sorted]. Qed.

Lemma rewards_AmountOf (denom : string) :
  sorted_denoms (UnclaimedRewards position) ->
  AmountOf denom
    (Add (UnclaimedRewards position)
       (MulDec
          (fst (SafeSub (value accum)
                  (Add (InitAccumValue position) feeGrowthOutside)))
          (NumShares position))) =
  AmountOf denom (UnclaimedRewards position) +
  Dec_Mul
    (AmountOf denom (value accum) -
     (AmountOf denom (InitAccumValue position) +
      AmountOf denom feeGrowthOutside))
    (NumShares position).
Proof.
  intros Hu. unfold Add at 1.
  rewrite safeAdd_AmountOf by (assumption || apply MulDec_sorted).
  rewrite MulDec_AmountOf by apply diff_sorted.
  rewrite diff_AmountOf. reflexivity.
Qed.

(** What a call that returns has computed. *)
Lemma getTotalRewards_returns (rewards : DecCoins) :
  getTotalRewards accum position feeGrowthOutside = Ok rewards ->
  (forall denom,
      AmountOf denom (InitAccumValue position) +
      AmountOf denom feeGrowthOutside <= AmountOf denom (value accum)) /\
  (forall denom,
      Dec_MulOverflows
        (AmountOf denom (value accum) -
         (AmountOf denom (InitAccumValue position) +
          AmountOf denom feeGrowthOutside))
        (NumShares position) = false) /\
  rewards =
  Add (UnclaimedRewards position)
    (MulDec
       (fst (SafeSub (value accum)
               (Add (InitAccumValue position) feeGrowthOutside)))
       (NumShares position)).
Proof.
  intros Hret.
  destruct getTotalRewards_cases
    as [(_ & Hp)|[(_ & _ & Hp)|(Hpre & Hno & Hok)]];
    rewrite Hret in *; try discriminate.
  injection Hok as ->. auto.
Qed.
End TotalRewards.

(** ** The reward engine *)

Ltac sorted_closed :=
  lazymatch goal with
  | |- sorted_denoms _ => vm_compute; repeat split; reflexivity
  end.

Ltac closed_Z :=
  first [ lia | reflexivity
        | vm_compute;
          first [reflexivity | let H := fresh in intro H; discriminate H] ].

Ltac sample_amounts denom :=
  unfold sampleAccum, samplePosition, wholeAccum, wholePosition, hugeAccum,
    hugePosition, wX, wY, uX, uY;
  cbn [AmountOf value InitAccumValue UnclaimedRewards NumShares Denom Amount];
  destruct (String.eqb "uX" denom), (String.eqb "uY" denom).

Ltac amounts_closed :=
  intros denom; sample_amounts denom; unfold ZeroDec; closed_Z.

Ltac range_closed :=
  intros denom; cbv zeta; unfold Dec_inRange; sample_amounts denom;
  unfold ZeroDec; repeat split; closed_Z.

(** C1 (as amended).  For valid coin sets with
    [value >= initAccumValue + growthOutside] in every denomination, read
    within the range of the decimals, [getTotalRewards] returns a valid coin
    set whose amount in every denomination is [unclaimedRewards + numShares *
    (value - (initAccumValue + growthOutside))], a denomination missing from
    an operand counting as zero and the product being the one [Dec.Mul]
    returns: the product of the two numbers rounded to 18 decimals, which is
    within half a unit of the last decimal of it, and is it exactly when the
    shares are a whole number. *)
Theorem getTotalRewards_formula (accum : AccumulatorObject)
    (position : PositionRecord) (feeGrowthOutside : DecCoins) :
  sorted_denoms (value accum) ->
  sorted_denoms (InitAccumValue position) ->
  sorted_denoms feeGrowthOutside ->
  sorted_denoms (UnclaimedRewards position) ->
  (forall denom,
      AmountOf denom (InitAccumValue position) +
      AmountOf denom feeGrowthOutside <= AmountOf denom (value accum)) ->
  rewardsInRange accum position feeGrowthOutside ->
  exists rewards,
    getTotalRewards accum position feeGrowthOutside = Ok rewards /\
    sorted_denoms rewards /\
    forall denom,
      let diff :=
        AmountOf denom (value accum) -
        (AmountOf denom (InitAccumValue position) +
         AmountOf denom feeGrowthOutside) in
      AmountOf denom rewards =
      AmountOf denom (UnclaimedRewards position) +
      Dec_Mul diff (NumShares position) /\
      2 * Z.abs (diff * NumShares position -
                 Dec_Mul diff (NumShares position) * precisionReuse) <=
      precisionReuse /\
      (Dec_IsInteger (NumShares position) = true ->
       Dec_Mul diff (NumShares position) =
       diff * (NumShares position / precisionReuse)).
Proof.
  intros Hv Hi Hg Hu Hle Hrange. eexists. split; [|split].
  - apply getTotalRewards_Ok; try assumption.
    intros denom. apply (Hrange denom).
  - apply rewards_sorted; assumption.
  - intros denom diff. split; [|split].
    + apply rewards_AmountOf; assumption.
    + apply chop_bound.
    + intros Hwhole. apply Dec_IsInteger_whole in Hwhole.
      rewrite Hwhole at 1. apply Dec_Mul_NewDec.
Qed.

Lemma getTotalRewards_formula_witness :
  exists rewards,
    getTotalRewards wholeAccum wholePosition [uX 2] = Ok rewards /\
    sorted_denoms rewards /\
    forall denom,
      let diff :=
        AmountOf denom [uX 10; uY 4] -
        (AmountOf denom [uX 3] + AmountOf denom [uX 2]) in
      AmountOf denom rewards =
      AmountOf denom [uY 1] + Dec_Mul diff (NewDec 100) /\
      2 * Z.abs (diff * NewDec 100 -
                 Dec_Mul diff (NewDec 100) * precisionReuse) <=
      precisionReuse /\
      (Dec_IsInteger (NewDec 100) = true ->
       Dec_Mul diff (NewDec 100) = diff * (NewDec 100 / precisionReuse)).
Proof.
  apply (getTotalRewards_formula wholeAccum wholePosition [uX 2]);
    try sorted_closed.
  - amounts_closed.
  - range_closed.
Defined.

(** C1 (as stated) fails twice.  Read against an accumulator behind its
    snapshot, a position gets no reward at all: the subtraction panics.  And
    a product is rounded: half a share read one unit of the last decimal
    after its snapshot is owed nothing, where the formula has half a unit. *)
Lemma getTotalRewards_formula_counterexample :
  getTotalRewards emptyAccum aheadPosition [] = Panic "negative coin amount" /\
  (let accum := withValue emptyAccum [uX 1] in
   let position :=
     {| NumShares := NewDec 1 / 2;
        InitAccumValue := [];
        UnclaimedRewards := [];
        Options := None |} in
   getTotalRewards accum position [] = Ok [] /\
   NumShares position *
     (AmountOf "uX" (value accum) -
      (AmountOf "uX" (InitAccumValue position) + AmountOf "uX" [])) <> 0).
Proof.
  split; [vm_compute; reflexivity|]. cbv zeta. split.
  - vm_compute. reflexivity.
  - vm_compute. discriminate.
Qed.







(** ** Validation of a replacement accumulator value *)

Lemma validateAccumulatorValue_negative_custom (custom old : DecCoins) :
  IsAnyNegative custom = true ->
  validateAccumulatorValue custom old = Some (NegativeCustomAccError custom).
Proof. intros H. unfold validateAccumulatorValue. rewrite H. reflexivity. Qed.

Lemma validateAccumulatorValue_negative_difference (custom old : DecCoins) :
  IsAnyNegative custom = false ->
  snd (SafeSub custom old) = true ->
  validateAccumulatorValue custom old =
  Some (NegativeAccDifferenceError
          (MulDec (fst (SafeSub custom old)) minusOne)).
Proof.
  intros H1 H2. unfold validateAccumulatorValue. rewrite H1.
  destruct (SafeSub custom old) as [newValue hasNeg]. cbn [fst snd] in *.
  rewrite H2. reflexivity.
Qed.

Lemma validateAccumulatorValue_success (custom old : DecCoins) :
  IsAnyNegative custom = false ->
  snd (SafeSub custom old) = false ->
  validateAccumulatorValue custom old = None.
Proof.
  intros H1 H2. unfold validateAccumulatorValue. rewrite H1.
  destruct (SafeSub custom old) as [newValue hasNeg]. cbn [fst snd] in *.
  rewrite H2. reflexivity.
Qed.

Lemma SafeSub_not_negative (coins coinsB : DecCoins) :
  sorted_denoms coins -> sorted_denoms coinsB ->
  snd (SafeSub coins coinsB) = false <-> coins_le coinsB coins.
Proof.
  intros Ha Hb. pose proof (SafeSub_negative coins coinsB Ha Hb) as [H1 H2].
  split.
  - intros Hf denom.
    destruct (Z_lt_le_dec (AmountOf denom coins) (AmountOf denom coinsB)); auto.
    rewrite H2 in Hf by eauto. discriminate.
  - intros Hle. destruct (snd (SafeSub coins coinsB)); [|reflexivity].
    destruct (H1 eq_refl) as (denom & Hlt). specialize (Hle denom). lia.
Qed.

(** C3.  For valid coin sets, [validateAccumulatorValue custom old] returns
    nil if and only if [custom] is non-negative in every denomination and at
    least [old] in every denomination, a missing denomination counting as
    zero. *)
Theorem validateAccumulatorValue_iff (custom old : DecCoins) :
  sorted_denoms custom -> sorted_denoms old ->
  validateAccumulatorValue custom old = None <->
  (forall denom, 0 <= AmountOf denom custom) /\
  (forall denom, AmountOf denom old <= AmountOf denom custom).
Proof.
  intros Hc Ho.
  rewrite <- (IsAnyNegative_false custom Hc).
  change (forall denom, AmountOf denom old <= AmountOf denom custom)
    with (coins_le old custom).
  rewrite <- (SafeSub_not_negative custom old Hc Ho).
  split.
  - intros Hnil. destruct (IsAnyNegative custom) eqn:E1.
    { rewrite validateAccumulatorValue_negative_custom in Hnil by assumption.
      discriminate. }
    destruct (snd (SafeSub custom old)) eqn:E2; [|auto].
    rewrite validateAccumulatorValue_negative_difference in Hnil by assumption.
    discriminate.
  - intros [H1 H2]. apply validateAccumulatorValue_success; assumption.
Qed.

Lemma validateAccumulatorValue_iff_witness :
  validateAccumulatorValue [uX 5; uY 1] [uX 3] = None <->
  (forall denom, 0 <= AmountOf denom [uX 5; uY 1]) /\
  (forall denom, AmountOf denom [uX 3] <= AmountOf denom [uX 5; uY 1]).
Proof.
  apply (validateAccumulatorValue_iff [uX 5; uY 1] [uX 3]); sorted_closed.
Defined.

(** C4.  The rules apply in order.  If some denomination of [custom] is
    negative the error is [NegativeCustomAccError] carrying [custom], whatever
    [old] is.  Otherwise, if [custom - old] is negative in some denomination,
    the error is [NegativeAccDifferenceError] carrying the deficit, the
    difference with its sign changed: [old - custom] in every
    denomination. *)
Theorem validateAccumulatorValue_rules (custom old : DecCoins) :
  sorted_denoms custom -> sorted_denoms old ->
  ((exists denom, AmountOf denom custom < 0) ->
   validateAccumulatorValue custom old =
   Some (NegativeCustomAccError custom)) /\
  ((forall denom, 0 <= AmountOf denom custom) ->
   (exists denom, AmountOf denom custom - AmountOf denom old < 0) ->
   exists deficit,
     validateAccumulatorValue custom old =
     Some (NegativeAccDifferenceError deficit) /\
     forall denom,
       AmountOf denom deficit = AmountOf denom old - AmountOf denom custom).
Proof.
  intros Hc Ho. split.
  - intros Hneg. apply validateAccumulatorValue_negative_custom.
    apply IsAnyNegative_true; assumption.
  - intros Hpos (denom & Hlt). eexists. split.
    + apply validateAccumulatorValue_negative_difference.
      * apply IsAnyNegative_false; assumption.
      * apply SafeSub_negative; [assumption..|]. exists denom. lia.
    + intros denom'.
      rewrite MulDec_AmountOf by (apply SafeSub_sorted; assumption).
      rewrite SafeSub_AmountOf by assumption. rewrite Dec_Mul_minusOne. lia.
Qed.

Lemma validateAccumulatorValue_rules_witness :
  validateAccumulatorValue [uX (-1); uY 1] [uX 3; uY 2] =
  Some (NegativeCustomAccError [uX (-1); uY 1]) /\
  exists deficit,
    validateAccumulatorValue [uX 1; uY 5] [uX 3; uY 2] =
    Some (NegativeAccDifferenceError deficit) /\
    forall denom,
      AmountOf denom deficit =
      AmountOf denom [uX 3; uY 2] - AmountOf denom [uX 1; uY 5].
Proof.
  split.
  - apply (validateAccumulatorValue_rules [uX (-1); uY 1] [uX 3; uY 2]);
      try sorted_closed.
    exists "uX"%string. vm_compute. reflexivity.
  - apply (validateAccumulatorValue_rules [uX 1; uY 5] [uX 3; uY 2]);
      try sorted_closed.
    + amounts_closed.
    + exists "uX"%string. vm_compute. reflexivity.
Defined.

(** ** Position records in the store *)

(** C6.  [getPosition] returns the record stored under the index when there
    is one, and [NoPositionError] carrying the index when there is none; in
    both cases the accumulator and its store are after the call what they
    were before. *)
Theorem getPosition_spec (accum : AccumulatorObject) (index : string) :
  getPosition accum index =
  match store accum !! formatPositionPrefixKey (name accum) index with
  | Some position => ((position, None), accum)
  | None => ((emptyRecord, Some (NoPositionError index)), accum)
  end.
Proof. apply getPosition_lookup. Qed.

(** C7 (as amended).  [initOrUpdatePosition] always writes, whatever the store
    holds under the index, the record made of its arguments unmodified: the
    shares, the unclaimed rewards, the options, and as [InitAccumValue] the
    accumulator value it is handed, which is the current value of the
    accumulator when the caller passes that. *)
Theorem initOrUpdatePosition_writes (accum : AccumulatorObject)
    (accumulatorValue : DecCoins) (index : string) (numShareUnits : Dec)
    (unclaimedRewards : DecCoins) (options : option accum_Options) :
  let accum' :=
    initOrUpdatePosition accum accumulatorValue index numShareUnits
      unclaimedRewards options in
  getPosition accum' index =
  (({| NumShares := numShareUnits;
       InitAccumValue := accumulatorValue;
       UnclaimedRewards := unclaimedRewards;
       Options := options |}, None), accum').
Proof.
  intros accum'. rewrite getPosition_lookup. subst accum'.
  rewrite initOrUpdatePosition_store. cbn [name initOrUpdatePosition withStore].
  rewrite lookup_insert_eq. reflexivity.
Qed.

(** C7 (as stated) fails: handed an accumulator value other than the current
    one, [initOrUpdatePosition] records the value it was handed. *)
Lemma initOrUpdatePosition_writes_counterexample :
  exists position,
    fst (getPosition
           (initOrUpdatePosition sampleAccum [] "b" 1 [] None) "b") =
    (position, None) /\
    InitAccumValue position <> value sampleAccum.
Proof. eexists. split; [vm_compute; reflexivity | discriminate]. Qed.

(** C8.  [initOrUpdatePosition] changes nothing but the record under its
    index: the name, the value and the total shares of the accumulator are
    what they were, and so is the store under every other key. *)
Theorem initOrUpdatePosition_frame (accum : AccumulatorObject)
    (accumulatorValue : DecCoins) (index : string) (numShareUnits : Dec)
    (unclaimedRewards : DecCoins) (options : option accum_Options) :
  let accum' :=
    initOrUpdatePosition accum accumulatorValue index numShareUnits
      unclaimedRewards options in
  name accum' = name accum /\
  value accum' = value accum /\
  totalShares accum' = totalShares accum /\
  (forall key, key <> formatPositionPrefixKey (name accum) index ->
               store accum' !! key = store accum !! key) /\
  (forall index', index' <> index ->
      fst (getPosition accum' index') = fst (getPosition accum index')).
Proof.
  cbn zeta. repeat split.
  - intros key Hne. rewrite initOrUpdatePosition_store.
    apply lookup_insert_ne. congruence.
  - intros index' Hne. rewrite !getPosition_lookup.
    rewrite initOrUpdatePosition_store.
    cbn [name initOrUpdatePosition withStore].
    rewrite lookup_insert_ne by (unfold formatPositionPrefixKey; congruence).
    destruct (store accum !! _); reflexivity.
Qed.

Lemma initOrUpdatePosition_frame_witness :
  store (initOrUpdatePosition sampleAccum [uX 10] "b" 5 [] None)
    !! ("pool"%string, "a"%string) = Some samplePosition /\
  fst (getPosition (initOrUpdatePosition sampleAccum [uX 10] "b" 5 [] None) "a")
  = (samplePosition, None).
Proof.
  destruct (initOrUpdatePosition_frame sampleAccum [uX 10] "b" 5 [] None)
    as (_ & _ & _ & Hkeys & Hothers).
  split.
  - rewrite Hkeys; [reflexivity | discriminate].
  - rewrite Hothers; [reflexivity | discriminate].
Defined.

(** Sums and differences of decimals are those of integers. *)
Ltac dec_lia :=
  unfold Dec_Add, Dec_Sub, Dec_Neg, ZeroDec, Dec in *; lia.

(** ** Sums over the records of a store *)

Section SumRecords.
Variable f : PositionRecord -> Z.
Implicit Types m : gmap (string * string) PositionRecord.

Lemma sumRecords_empty : sumRecords f ∅ = 0.
Proof. unfold sumRecords. apply map_fold_empty. Qed.

Lemma sumRecords_insert_fresh m key position :
  m !! key = None ->
  sumRecords f (<[key := position]> m) = f position + sumRecords f m.
Proof.
  intros Hnone. unfold sumRecords.
  rewrite map_fold_insert_L; [reflexivity | intros; lia | exact Hnone].
Qed.

Lemma sumRecords_delete m key :
  sumRecords f (delete key m) = sumRecords f m - from_option f 0 (m !! key).
Proof.
  destruct (m !! key) as [position|] eqn:Hlk; cbn.
  - rewrite <- (insert_delete_id m key position Hlk) at 2.
    rewrite sumRecords_insert_fresh by apply lookup_delete_eq. lia.
  - rewrite delete_id by assumption. lia.
Qed.

Lemma sumRecords_insert m key position :
  sumRecords f (<[key := position]> m) =
  f position + sumRecords f m - from_option f 0 (m !! key).
Proof.
  rewrite <- insert_delete_eq.
  rewrite sumRecords_insert_fresh by apply lookup_delete_eq.
  rewrite sumRecords_delete. lia.
Qed.
End SumRecords.

Lemma sumRecords_ext (f g : PositionRecord -> Z)
    (m : gmap (string * string) PositionRecord) :
  (forall key position, m !! key = Some position -> f position = g position) ->
  sumRecords f m = sumRecords g m.
Proof.
  induction m as [|key position m Hnone IH] using map_ind; intros Hfg.
  - rewrite !sumRecords_empty. reflexivity.
  - rewrite !sumRecords_insert_fresh by assumption.
    rewrite (Hfg key position) by apply lookup_insert_eq.
    rewrite IH; [reflexivity|].
    intros key' position' Hlk. apply (Hfg key').
    rewrite lookup_insert_ne; [assumption|]. congruence.
Qed.

Lemma sumRecords_linear (f g : PositionRecord -> Z) (c : Z)
    (m : gmap (string * string) PositionRecord) :
  sumRecords (fun position => f position + g position * c) m =
  sumRecords f m + sumRecords g m * c.
Proof.
  induction m as [|key position m Hnone IH] using map_ind.
  - rewrite !sumRecords_empty. lia.
  - rewrite !sumRecords_insert_fresh by assumption. rewrite IH. lia.
Qed.

(** ** Whole shares *)

Lemma Dec_IsInteger_add (a b : Dec) :
  Dec_IsInteger a = true -> Dec_IsInteger b = true ->
  Dec_IsInteger (Dec_Add a b) = true.
Proof.
  intros Ha Hb. apply Dec_IsInteger_whole in Ha. apply Dec_IsInteger_whole in Hb.
  unfold Dec_Add. rewrite Ha, Hb, NewDec_add. apply Dec_IsInteger_NewDec.
Qed.

Lemma Dec_IsInteger_sub (a b : Dec) :
  Dec_IsInteger a = true -> Dec_IsInteger b = true ->
  Dec_IsInteger (Dec_Sub a b) = true.
Proof.
  intros Ha Hb. apply Dec_IsInteger_whole in Ha. apply Dec_IsInteger_whole in Hb.
  unfold Dec_Sub. rewrite Ha, Hb.
  replace (NewDec (a / precisionReuse) - NewDec (b / precisionReuse))
    with (NewDec (a / precisionReuse - b / precisionReuse))
    by (unfold NewDec; lia).
  apply Dec_IsInteger_NewDec.
Qed.

(** The product with whole shares is the product of the integers. *)
Lemma Dec_Mul_whole (a n : Dec) :
  Dec_IsInteger n = true -> Dec_Mul a n = a * (n / precisionReuse).
Proof.
  intros Hn. apply Dec_IsInteger_whole in Hn. rewrite Hn at 1.
  apply Dec_Mul_NewDec.
Qed.

Lemma sumRecords_whole (m : gmap (string * string) PositionRecord) :
  (forall key position,
      m !! key = Some position -> Dec_IsInteger (NumShares position) = true) ->
  sumRecords NumShares m =
  sumRecords (fun position => NumShares position / precisionReuse) m *
  precisionReuse.
Proof.
  induction m as [|key position m Hnone IH] using map_ind; intros Hw.
  - rewrite !sumRecords_empty. reflexivity.
  - rewrite !sumRecords_insert_fresh by assumption.
    rewrite IH.
    + pose proof (Hw key position (lookup_insert_eq _ _ _)) as Hp.
      apply Dec_IsInteger_whole in Hp. unfold NewDec in Hp.
      rewrite Z.mul_add_distr_r, <- Hp. reflexivity.
    + intros key' position' Hlk. apply (Hw key').
      rewrite lookup_insert_ne; [assumption|]. congruence.
Qed.

(** ** Settlement of one position *)

Lemma Sub_Ok_inv (coins coinsB diff : DecCoins) :
  Sub coins coinsB = Ok diff -> diff = fst (SafeSub coins coinsB).
Proof.
  unfold Sub. destruct (SafeSub coins coinsB) as [d hasNeg].
  destruct hasNeg; [discriminate|]. intros H. injection H as <-. reflexivity.
Qed.

Lemma settledValue_sorted (accum : AccumulatorObject)
    (growthOutside accumulatorValue : DecCoins) :
  sorted_denoms (value accum) -> sorted_denoms growthOutside ->
  settledValue accum growthOutside = Ok accumulatorValue ->
  sorted_denoms accumulatorValue /\
  forall denom,
    AmountOf denom accumulatorValue =
    AmountOf denom (value accum) - AmountOf denom growthOutside.
Proof.
  intros Hv Hg Hret. apply Sub_Ok_inv in Hret. subst accumulatorValue. split.
  - apply SafeSub_sorted; assumption.
  - intros denom. apply SafeSub_AmountOf; assumption.
Qed.

Lemma getTotalRewards_valid (accum : AccumulatorObject)
    (position : PositionRecord) (rewards : DecCoins) :
  sorted_denoms (value accum) ->
  validRecord (value accum) position ->
  getTotalRewards accum position NewDecCoins = Ok rewards ->
  sorted_denoms rewards /\
  forall denom, AmountOf denom rewards = owed (value accum) denom position.
Proof.
  intros Hv (Hi & Hu & Hle) Hret.
  apply getTotalRewards_returns in Hret as (_ & _ & ->);
    [|assumption|assumption|exact I].
  split.
  - apply rewards_sorted; assumption.
  - intros denom.
    rewrite rewards_AmountOf; [|assumption|assumption|exact I|assumption].
    unfold owed. cbn [AmountOf NewDecCoins]. unfold ZeroDec.
    rewrite Z.add_0_r. reflexivity.
Qed.

(** A record the invariant holds for is read or out of range: the
    subtraction does not panic. *)
Lemma getTotalRewards_valid_cases (accum : AccumulatorObject)
    (position : PositionRecord) :
  sorted_denoms (value accum) ->
  validRecord (value accum) position ->
  (exists rewards, getTotalRewards accum position NewDecCoins = Ok rewards) \/
  getTotalRewards accum position NewDecCoins = Panic "Int overflow".
Proof.
  intros Hv (Hi & Hu & Hle).
  destruct (getTotalRewards_cases accum position NewDecCoins Hv Hi I)
    as [((denom & Hlt) & _)|[(_ & _ & Hp)|(_ & _ & Hok)]]; eauto.
  exfalso. specialize (Hle denom). cbn [AmountOf NewDecCoins] in Hlt.
  unfold ZeroDec in Hlt. lia.
Qed.

Lemma positionRewards_owed (accum : AccumulatorObject) (denom : string)
    (position : PositionRecord) (rewards : DecCoins) :
  sorted_denoms (value accum) ->
  validRecord (value accum) position ->
  getTotalRewards accum position NewDecCoins = Ok rewards ->
  positionRewards accum denom position = owed (value accum) denom position.
Proof.
  intros Hv Hr Hret. unfold positionRewards. rewrite Hret.
  apply (getTotalRewards_valid accum position rewards Hv Hr Hret).
Qed.

Lemma readable_lookup (accum : AccumulatorObject) :
  readable accum = true ->
  forall key position,
    store accum !! key = Some position ->
    exists rewards, getTotalRewards accum position NewDecCoins = Ok rewards.
Proof.
  unfold readable. generalize (store accum) as m.
  induction m as [|key position m Hnone IH] using map_ind.
  - intros _ key position Hlk. rewrite lookup_empty in Hlk. discriminate.
  - rewrite map_fold_insert_L; [| |exact Hnone].
    + intros Hfold key' position' Hlk.
      destruct (decide (key = key')) as [<-|Hne].
      * rewrite lookup_insert_eq in Hlk. injection Hlk as <-.
        destruct (getTotalRewards accum position NewDecCoins); [eauto|].
        discriminate.
      * rewrite lookup_insert_ne in Hlk by assumption.
        apply (IH ltac:(destruct (getTotalRewards accum position NewDecCoins);
                        [exact Hfold | discriminate]) key' position' Hlk).
    + intros j1 j2 z1 z2 y _ _ _.
      destruct (getTotalRewards accum z1 NewDecCoins),
               (getTotalRewards accum z2 NewDecCoins); reflexivity.
Qed.

(** ** The books balance *)

Lemma validRecord_rebased (value' accumulatorValue : DecCoins)
    (numShares : Dec) (unclaimedRewards : DecCoins)
    (options : option accum_Options) :
  sorted_denoms accumulatorValue -> sorted_denoms unclaimedRewards ->
  (forall denom,
      AmountOf denom accumulatorValue = AmountOf denom value' - 0) ->
  validRecord value'
    (mkPositionRecord numShares accumulatorValue unclaimedRewards options).
Proof.
  intros Ha Hu Heq. split; [exact Ha|]. split; [exact Hu|].
  intros denom. cbn. rewrite Heq. lia.
Qed.

Lemma owed_rebased (value' accumulatorValue : DecCoins) (denom : string)
    (numShares : Dec) (unclaimedRewards : DecCoins)
    (options : option accum_Options) :
  (forall denom,
      AmountOf denom accumulatorValue = AmountOf denom value' - 0) ->
  owed value' denom
    (mkPositionRecord numShares accumulatorValue unclaimedRewards options) =
  AmountOf denom unclaimedRewards.
Proof.
  intros Heq. unfold owed. cbn [UnclaimedRewards InitAccumValue NumShares].
  rewrite Heq, Z.sub_0_r, Z.sub_diag, Dec_Mul_0_l. lia.
Qed.

Section Books.
Variable r : reading.
Variable l : Ledger.
Hypothesis Hl : Conserved r l.

Lemma conserved_total_whole :
  Dec_IsInteger (totalShares (accumulator l)) = true.
Proof.
  destruct Hl as [_ _ Hw Hsh _ _ _]. rewrite Hsh, sumRecords_whole by exact Hw.
  apply Dec_IsInteger_NewDec.
Qed.

Lemma conserved_write (key : string * string) (position' : PositionRecord)
    (total' : Dec) (payout : DecCoins) :
  validRecord (value (accumulator l)) position' ->
  Dec_IsInteger (NumShares position') = true ->
  total' = totalShares (accumulator l) + NumShares position'
           - from_option NumShares 0 (store (accumulator l) !! key) ->
  0 <= total' ->
  (forall denom,
      AmountOf denom payout + owed (value (accumulator l)) denom position' =
      from_option (owed (value (accumulator l)) denom) 0
        (store (accumulator l) !! key)) ->
  Conserved r
    {| accumulator :=
         {| store := <[key := position']> (store (accumulator l));
            name := name (accumulator l);
            value := value (accumulator l);
            totalShares := total' |};
       payouts := payout :: payouts l;
       deltas := deltas l |}.
Proof.
  intros Hvalid Hwhole Htotal Hpos Hbooks.
  destruct Hl as [Hv Hrec Hw Hsh Ht Hd Hbk].
  constructor; cbn [accumulator store value totalShares deltas].
  - exact Hv.
  - intros key' position Hlk.
    destruct (decide (key = key')) as [<-|Hne].
    + rewrite lookup_insert_eq in Hlk. congruence.
    + rewrite lookup_insert_ne in Hlk by assumption. eauto.
  - intros key' position Hlk.
    destruct (decide (key = key')) as [<-|Hne].
    + rewrite lookup_insert_eq in Hlk. congruence.
    + rewrite lookup_insert_ne in Hlk by assumption. eauto.
  - rewrite sumRecords_insert. dec_lia.
  - exact Hpos.
  - exact Hd.
  - intros denom. rewrite sumRecords_insert.
    unfold paidOut, fundedRewards in *.
    cbn [payouts deltas map sumZ fold_right].
    specialize (Hbk denom). specialize (Hbooks denom). fold sumZ.
    unfold sumZ in *. dec_lia.
Qed.

Lemma conserved_delete (key : string * string) (total' : Dec)
    (payout : DecCoins) :
  total' = totalShares (accumulator l)
           - from_option NumShares 0 (store (accumulator l) !! key) ->
  0 <= total' ->
  (forall denom,
      AmountOf denom payout =
      from_option (owed (value (accumulator l)) denom) 0
        (store (accumulator l) !! key)) ->
  Conserved r
    {| accumulator :=
         {| store := delete key (store (accumulator l));
            name := name (accumulator l);
            value := value (accumulator l);
            totalShares := total' |};
       payouts := payout :: payouts l;
       deltas := deltas l |}.
Proof.
  intros Htotal Hpos Hbooks. destruct Hl as [Hv Hrec Hw Hsh Ht Hd Hbk].
  constructor; cbn [accumulator store value totalShares deltas].
  - exact Hv.
  - intros key' position Hlk.
    apply lookup_delete_Some in Hlk as [_ Hlk]. eauto.
  - intros key' position Hlk.
    apply lookup_delete_Some in Hlk as [_ Hlk]. eauto.
  - rewrite sumRecords_delete. dec_lia.
  - exact Hpos.
  - exact Hd.
  - intros denom. rewrite sumRecords_delete.
    unfold paidOut, fundedRewards in *.
    cbn [payouts deltas map sumZ fold_right].
    specialize (Hbk denom). specialize (Hbooks denom).
    unfold sumZ in *. dec_lia.
Qed.

Lemma conserved_increase (delta growth : DecCoins) :
  sorted_denoms growth ->
  (forall denom, 0 <= AmountOf denom growth) ->
  (r = Split -> totalShares (accumulator l) <> 0) ->
  (forall denom,
      worth r denom (delta, totalShares (accumulator l)) =
      Dec_Mul (AmountOf denom growth) (totalShares (accumulator l))) ->
  Conserved r
    {| accumulator :=
         withValue (accumulator l) (Add (value (accumulator l)) growth);
       payouts := NewDecCoins :: payouts l;
       deltas := (delta, totalShares (accumulator l)) :: deltas l |}.
Proof.
  intros Hg Hge Hsplit Hworth. pose proof conserved_total_whole as Htw.
  destruct Hl as [Hv Hrec Hw Hsh Ht Hd Hbk].
  assert (Ham : forall denom,
             AmountOf denom (Add (value (accumulator l)) growth) =
             AmountOf denom (value (accumulator l)) + AmountOf denom growth).
  { intros denom. apply safeAdd_AmountOf; assumption. }
  constructor; cbn [accumulator store value totalShares withValue deltas].
  - apply safeAdd_sorted; assumption.
  - intros key position Hlk.
    destruct (Hrec key position Hlk) as (Hi & Hu & Hle).
    repeat split; try assumption.
    intros denom. rewrite Ham. specialize (Hle denom). specialize (Hge denom).
    dec_lia.
  - exact Hw.
  - exact Hsh.
  - exact Ht.
  - constructor; [|exact Hd]. cbn [snd]. split; assumption.
  - intros denom.
    rewrite (sumRecords_ext _
               (fun position =>
                  owed (value (accumulator l)) denom position +
                  NumShares position / precisionReuse *
                  AmountOf denom growth)).
    + rewrite sumRecords_linear.
      unfold paidOut, fundedRewards in *.
      cbn [payouts deltas map sumZ fold_right AmountOf NewDecCoins].
      rewrite Hworth, (Dec_Mul_whole _ _ Htw).
      specialize (Hbk denom). rewrite Hsh at 1.
      rewrite (sumRecords_whole _ Hw).
      rewrite Z.div_mul by (rewrite precisionReuse_eq; lia).
      unfold sumZ in *. unfold ZeroDec, Dec in *. lia.
    + intros key position Hlk. unfold owed. rewrite Ham.
      rewrite !(Dec_Mul_whole _ _ (Hw key position Hlk)).
      unfold Dec in *. lia.
Qed.
End Books.

(** ** Every operation keeps the books *)

Ltac open_position accum index Hlk :=
  rewrite (getPosition_lookup accum index);
  destruct (store accum !! formatPositionPrefixKey (name accum) index)
    as [position|] eqn:Hlk;
  cbn beta iota zeta.

Lemma Dec_IsNegative_false (a : Dec) : Dec_IsNegative a = false -> 0 <= a.
Proof. unfold Dec_IsNegative. apply Z.ltb_ge. Qed.

Lemma CreatePosition_conserved (r : reading) (l : Ledger) (index : string)
    (numShares : Dec) (options : option accum_Options) :
  Dec_IsInteger numShares = true ->
  Conserved r l ->
  Conserved r (step r l (OpCreatePosition index numShares options)).
Proof.
  intros Hwhole Hl. unfold step. cbn [applyOp]. unfold CreatePosition.
  open_position (accumulator l) index Hlk; [exact Hl|].
  destruct (Dec_IsPositive numShares); cbn [negb]; [|exact Hl].
  unfold adjustTotalShares, initOrUpdatePosition, withStore, osmoutils.MustSet.
  cbn [store name value totalShares].
  destruct (Dec_IsNegative _) eqn:Hneg; [exact Hl|].
  apply Dec_IsNegative_false in Hneg.
  apply (conserved_write r l Hl); [| exact Hwhole | | exact Hneg |].
  - apply validRecord_rebased; [apply Hl | exact I | intros; lia].
  - rewrite Hlk. cbn. dec_lia.
  - intros denom. rewrite Hlk. rewrite owed_rebased by (intros; lia).
    reflexivity.
Qed.

Lemma AddToPosition_conserved (r : reading) (l : Ledger) (index : string)
    (delta : Dec) :
  Dec_IsInteger delta = true ->
  Conserved r l ->
  Conserved r (step r l (OpAddToPosition index delta NewDecCoins)).
Proof.
  intros Hwhole Hl. unfold step. cbn [applyOp]. unfold AddToPosition.
  open_position (accumulator l) index Hlk; [|exact Hl].
  pose proof (cons_records r l Hl _ _ Hlk) as Hvalid.
  destruct (getTotalRewards (accumulator l) position NewDecCoins)
    as [rewards|msg] eqn:Hret; [|exact Hl].
  destruct (getTotalRewards_valid _ _ _ (cons_value r l Hl) Hvalid Hret)
    as [Hsorted Ham].
  destruct (settledValue (accumulator l) NewDecCoins)
    as [base|msg] eqn:Hbase; [|exact Hl].
  destruct (settledValue_sorted (accumulator l) NewDecCoins base
              (cons_value r l Hl) I Hbase)
    as [Hbs Hba].
  unfold adjustTotalShares, initOrUpdatePosition, withStore, osmoutils.MustSet.
  cbn [store name value totalShares].
  destruct (Dec_IsNegative _) eqn:Hneg; [exact Hl|].
  apply Dec_IsNegative_false in Hneg.
  apply (conserved_write r l Hl); [| | | exact Hneg |].
  - apply validRecord_rebased; assumption.
  - apply Dec_IsInteger_add; [|exact Hwhole].
    eapply cons_whole; eassumption.
  - rewrite Hlk. cbn. dec_lia.
  - intros denom. rewrite Hlk. rewrite owed_rebased by assumption.
    cbn. rewrite Ham. reflexivity.
Qed.

Lemma RemoveFromPosition_conserved (r : reading) (l : Ledger) (index : string)
    (delta : Dec) :
  Dec_IsInteger delta = true ->
  Conserved r l ->
  Conserved r (step r l (OpRemoveFromPosition index delta NewDecCoins)).
Proof.
  intros Hwhole Hl. unfold step. cbn [applyOp]. unfold RemoveFromPosition.
  open_position (accumulator l) index Hlk; [|exact Hl].
  destruct (Dec_GT delta (NumShares position)); [exact Hl|].
  pose proof (cons_records r l Hl _ _ Hlk) as Hvalid.
  destruct (getTotalRewards (accumulator l) position NewDecCoins)
    as [rewards|msg] eqn:Hret; [|exact Hl].
  destruct (getTotalRewards_valid _ _ _ (cons_value r l Hl) Hvalid Hret)
    as [Hsorted Ham].
  destruct (settledValue (accumulator l) NewDecCoins)
    as [base|msg] eqn:Hbase; [|exact Hl].
  destruct (settledValue_sorted (accumulator l) NewDecCoins base
              (cons_value r l Hl) I Hbase)
    as [Hbs Hba].
  destruct (Dec_IsZero (Dec_Sub (NumShares position) delta)) eqn:Hzero;
    unfold adjustTotalShares, deletePosition, initOrUpdatePosition, withStore,
      osmoutils.MustSet;
    cbn [store name value totalShares];
    (destruct (Dec_IsNegative _) eqn:Hneg; [exact Hl|]);
    apply Dec_IsNegative_false in Hneg.
  - apply Dec_IsZero_true in Hzero.
    apply (conserved_delete r l Hl); [| exact Hneg |].
    + rewrite Hlk. cbn. dec_lia.
    + intros denom. rewrite Hlk. cbn. apply Ham.
  - apply (conserved_write r l Hl); [| | | exact Hneg |].
    + apply validRecord_rebased; assumption.
    + apply Dec_IsInteger_sub; [|exact Hwhole].
      eapply cons_whole; eassumption.
    + rewrite Hlk. cbn. dec_lia.
    + intros denom. rewrite Hlk. rewrite owed_rebased by assumption.
      cbn. rewrite Ham. reflexivity.
Qed.

Lemma ClaimRewards_conserved (r : reading) (l : Ledger) (index : string) :
  Conserved r l -> Conserved r (step r l (OpClaimRewards index NewDecCoins)).
Proof.
  intros Hl. unfold step. cbn [applyOp]. unfold ClaimRewards.
  open_position (accumulator l) index Hlk; [|exact Hl].
  pose proof (cons_records r l Hl _ _ Hlk) as Hvalid.
  destruct (getTotalRewards (accumulator l) position NewDecCoins)
    as [rewards|msg] eqn:Hret; [|exact Hl].
  destruct (getTotalRewards_valid _ _ _ (cons_value r l Hl) Hvalid Hret)
    as [Hsorted Ham].
  destruct (settledValue (accumulator l) NewDecCoins)
    as [base|msg] eqn:Hbase; [|exact Hl].
  destruct (settledValue_sorted (accumulator l) NewDecCoins base
              (cons_value r l Hl) I Hbase)
    as [Hbs Hba].
  unfold initOrUpdatePosition, withStore, osmoutils.MustSet.
  apply (conserved_write r l Hl).
  - apply validRecord_rebased; [assumption | exact I | assumption].
  - cbn [NumShares]. eapply cons_whole; eassumption.
  - rewrite Hlk. cbn. dec_lia.
  - apply Hl.
  - intros denom. rewrite Hlk. rewrite owed_rebased by assumption.
    cbn. rewrite Ham. dec_lia.
Qed.

(** The growth a delta brings is a valid coin set without a negative
    denomination, and worth its amount times the total shares. *)
Lemma increment_growth (r : reading) (accum : AccumulatorObject)
    (delta growth : DecCoins) :
  sorted_denoms delta ->
  IsAnyNegative delta = false ->
  0 <= totalShares accum ->
  increment r accum delta = Ok growth ->
  sorted_denoms growth /\
  (forall denom, 0 <= AmountOf denom growth) /\
  (r = Split -> totalShares accum <> 0) /\
  (forall denom,
      worth r denom (delta, totalShares accum) =
      Dec_Mul (AmountOf denom growth) (totalShares accum)).
Proof.
  intros Hd Hneg Ht Hinc.
  pose proof (proj1 (IsAnyNegative_false delta Hd) Hneg) as Hge.
  destruct r; cbn [increment] in Hinc.
  - injection Hinc as <-. repeat split; try assumption. discriminate.
  - apply QuoDec_Ok in Hinc as (Hne & Hs & Ham); [|assumption].
    split; [exact Hs|]. split; [|split].
    + intros denom. rewrite Ham. apply Dec_Quo_nonneg; [apply Hge|].
      unfold Dec in *. lia.
    + intros _. exact Hne.
    + intros denom. unfold worth. cbn [fst snd]. rewrite Ham. reflexivity.
Qed.

Lemma IncreaseValue_conserved (r : reading) (l : Ledger) (delta : DecCoins) :
  sorted_denoms delta ->
  Conserved r l -> Conserved r (step r l (OpIncreaseValue delta)).
Proof.
  intros Hd Hl. unfold step. cbn [applyOp]. unfold IncreaseValue.
  destruct (IsAnyNegative delta) eqn:Hneg; [exact Hl|].
  destruct (increment r (accumulator l) delta) as [growth|msg] eqn:Hinc;
    [|exact Hl].
  destruct (increment_growth r _ _ _ Hd Hneg (cons_total r l Hl) Hinc)
    as (Hs & Hge & Hsplit & Hworth).
  apply (conserved_increase r l Hl); assumption.
Qed.

Lemma step_conserved (r : reading) (l : Ledger) (op : Operation) :
  nonRanged op -> wholeShares op ->
  Conserved r l -> Conserved r (step r l op).
Proof.
  destruct op as [delta|index n options|index delta g|index delta g|index g];
    cbn [nonRanged wholeShares]; intros Hop Hwhole; subst;
    auto using IncreaseValue_conserved, CreatePosition_conserved,
      AddToPosition_conserved, RemoveFromPosition_conserved,
      ClaimRewards_conserved.
Qed.

Lemma run_conserved (r : reading) (ops : list Operation) (l : Ledger) :
  Forall nonRanged ops -> Forall wholeShares ops ->
  Conserved r l -> Conserved r (run r ops l).
Proof.
  unfold run. revert l.
  induction ops as [|op ops IH]; intros l Hops Hwhole Hl; [exact Hl|].
  inversion Hops; inversion Hwhole; subst. cbn [fold_left].
  apply IH; [assumption | assumption |]. apply step_conserved; assumption.
Qed.

Lemma newLedger_conserved (r : reading) (name' : string) :
  Conserved r (newLedger name').
Proof.
  constructor; cbn.
  - exact I.
  - intros key position Hlk. rewrite lookup_empty in Hlk. discriminate.
  - intros key position Hlk. rewrite lookup_empty in Hlk. discriminate.
  - rewrite sumRecords_empty. reflexivity.
  - unfold ZeroDec. lia.
  - constructor.
  - intros denom. rewrite sumRecords_empty. reflexivity.
Qed.

Lemma liveRewards_owed (r : reading) (l : Ledger) (denom : string) :
  Conserved r l ->
  readable (accumulator l) = true ->
  liveRewards denom (accumulator l) =
  sumRecords (owed (value (accumulator l)) denom) (store (accumulator l)).
Proof.
  intros Hl Hread. unfold liveRewards. apply sumRecords_ext.
  intros key position Hlk.
  destruct (readable_lookup _ Hread key position Hlk) as (rewards & Hret).
  eapply positionRewards_owed; [apply Hl | | exact Hret].
  eapply cons_records; eassumption.
Qed.

(** What a delta is worth under each reading. *)
Lemma worth_PerShare (denom : string) (e : DecCoins * Dec) :
  Dec_IsInteger (snd e) = true ->
  worth PerShare denom e =
  AmountOf denom (fst e) * (snd e / precisionReuse).
Proof. intros Hw. unfold worth. apply Dec_Mul_whole, Hw. Qed.

Lemma worth_Split (denom : string) (e : DecCoins * Dec) :
  Dec_IsInteger (snd e) = true -> snd e <> 0 ->
  Z.divide (snd e / precisionReuse) (AmountOf denom (fst e)) ->
  worth Split denom e = AmountOf denom (fst e).
Proof.
  destruct e as [delta total]. cbn [fst snd]. intros Hw Hne [k Hk].
  unfold worth. cbn [fst snd]. rewrite Hk.
  apply Dec_IsInteger_whole in Hw.
  remember (total / precisionReuse) as t eqn:Ht. subst total.
  assert (Hnz : t <> 0) by (intros ->; apply Hne; reflexivity).
  rewrite Dec_Quo_whole by exact Hnz. apply Dec_Mul_NewDec.
Qed.

Lemma funded_PerShare (r : reading) (denom : string)
    (es : list (DecCoins * Dec)) :
  Forall (fun e => Dec_IsInteger (snd e) = true /\
                   (r = Split -> snd e <> 0)) es ->
  sumZ (map (worth PerShare denom) es) =
  sumZ (map (fun e => AmountOf denom (fst e) * (snd e / precisionReuse)) es).
Proof.
  induction 1 as [|e es [He _] _ IH]; [reflexivity|].
  cbn [map sumZ fold_right]. rewrite worth_PerShare by exact He.
  unfold sumZ in IH. rewrite IH. reflexivity.
Qed.

Lemma funded_Split (denom : string) (es : list (DecCoins * Dec)) :
  Forall (fun e => Dec_IsInteger (snd e) = true /\
                   (Split = Split -> snd e <> 0)) es ->
  Forall (fun e => Z.divide (snd e / precisionReuse) (AmountOf denom (fst e)))
    es ->
  sumZ (map (worth Split denom) es) =
  sumZ (map (fun e => AmountOf denom (fst e)) es).
Proof.
  induction 1 as [|e es [He Hne] _ IH]; [reflexivity|].
  intros Hdiv. inversion Hdiv; subst.
  cbn [map sumZ fold_right]. rewrite worth_Split by auto.
  unfold sumZ in IH. rewrite IH by assumption. reflexivity.
Qed.

(** ** Conservation of value *)

(** C2 (as amended).  For any sequence of [IncreaseValue], [CreatePosition],
    [AddToPosition], [RemoveFromPosition] and [ClaimRewards] calls on a fresh
    accumulator, all without growth outside and in whole shares: every live
    position is read by [getTotalRewards] or out of the range of the
    decimals; and when every live position is read, in every denomination
    the payouts plus the computed total rewards of the live positions equal,
    exactly, what the committed deltas brought: the growth of the value per
    share times the total shares at the time of the call.  When
    [IncreaseValue] adds its delta to the value, that is the delta times the
    number of shares; when it adds the delta divided by the total shares,
    that is the delta itself, provided the number of shares divides its
    amount. *)
Theorem conservation_of_value (r : reading) (name' : string)
    (ops : list Operation) :
  Forall nonRanged ops ->
  Forall wholeShares ops ->
  let l := run r ops (newLedger name') in
  (forall key position,
      store (accumulator l) !! key = Some position ->
      (exists rewards,
          getTotalRewards (accumulator l) position NewDecCoins = Ok rewards) \/
      getTotalRewards (accumulator l) position NewDecCoins =
      Panic "Int overflow") /\
  (readable (accumulator l) = true ->
   forall denom,
     paidOut denom l + liveRewards denom (accumulator l) =
     fundedRewards r denom l) /\
  (forall denom,
      match r with
      | PerShare =>
          fundedRewards r denom l =
          sumZ (List.map
                  (fun e => AmountOf denom (fst e) * (snd e / precisionReuse))
                  (deltas l))
      | Split =>
          Forall
            (fun e =>
               Z.divide (snd e / precisionReuse) (AmountOf denom (fst e)))
            (deltas l) ->
          fundedRewards r denom l = sumDeltas denom l
      end).
Proof.
  intros Hops Hwhole l.
  assert (Hl : Conserved r l)
    by (apply run_conserved; [assumption.. | apply newLedger_conserved]).
  split; [|split].
  - intros key position Hlk.
    apply getTotalRewards_valid_cases; [apply Hl|].
    eapply cons_records; eassumption.
  - intros Hread denom. rewrite (liveRewards_owed r) by assumption. apply Hl.
  - intros denom. pose proof (cons_deltas r l Hl) as Hd.
    unfold fundedRewards, sumDeltas. clearbody l. clear Hl. destruct r.
    + apply (funded_PerShare PerShare). exact Hd.
    + apply funded_Split. exact Hd.
Qed.

Lemma conservation_of_value_witness :
  let l := run Split sampleOps (newLedger "pool") in
  paidOut "uX" l + liveRewards "uX" (accumulator l) = sumDeltas "uX" l /\
  paidOut "uY" l + liveRewards "uY" (accumulator l) = sumDeltas "uY" l.
Proof.
  assert (Hops : Forall nonRanged sampleOps)
    by (repeat constructor; sorted_closed).
  assert (Hwhole : Forall wholeShares sampleOps)
    by (repeat constructor; vm_compute; reflexivity).
  destruct (conservation_of_value Split "pool" sampleOps Hops Hwhole)
    as (_ & Hbooks & Hfunded).
  assert (Hread : readable (accumulator (run Split sampleOps (newLedger "pool")))
                  = true) by (vm_compute; reflexivity).
  assert (Hdeltas : deltas (run Split sampleOps (newLedger "pool")) =
                    [([wY 500], NewDec 250); ([wX 1000; wY 300], NewDec 200);
                     ([wX 1000], NewDec 100)]) by (vm_compute; reflexivity).
  cbv zeta. split.
  - rewrite (Hbooks Hread "uX"%string). apply (Hfunded "uX"%string).
    rewrite Hdeltas.
    repeat (constructor; [apply Z.mod_divide; closed_Z|]).
    constructor.
  - rewrite (Hbooks Hread "uY"%string). apply (Hfunded "uY"%string).
    rewrite Hdeltas.
    repeat (constructor; [apply Z.mod_divide; closed_Z|]).
    constructor.
Defined.

(** C2 (as stated) fails under both readings of [IncreaseValue]: the
    products are rounded.  Two positions of half a share each share a delta
    of one unit of the last decimal; each is owed half a unit, which rounds
    to nothing, and the delta is owed to nobody. *)
Lemma conservation_of_value_counterexample :
  (let l := run PerShare halfShareOps (newLedger "pool") in
   readable (accumulator l) = true /\
   paidOut "uX" l + liveRewards "uX" (accumulator l) = 0 /\
   sumDeltas "uX" l = 1 /\
   paidOut "uX" l + liveRewards "uX" (accumulator l) <> sumDeltas "uX" l) /\
  (let l := run Split halfShareOps (newLedger "pool") in
   readable (accumulator l) = true /\
   paidOut "uX" l + liveRewards "uX" (accumulator l) = 0 /\
   sumDeltas "uX" l = 1 /\
   paidOut "uX" l + liveRewards "uX" (accumulator l) <> sumDeltas "uX" l).
Proof.
  cbv zeta. repeat split; vm_compute; (reflexivity || discriminate).
Qed.

(** The scenarios of section 8 of the spec, [IncreaseValue] dividing its
    delta by the total shares (the payouts of a ledger are listed latest
    first): after two deltas of ten coins, the second shared with a newcomer,
    the first position claims fifteen and the second five; a position that
    removed forty of its hundred shares after ten coins claims 13.6 after six
    more. *)
Example scenario_claims :
  payouts
    (run Split (scenarioOps ++ [OpClaimRewards "a" []; OpClaimRewards "b" []])
       (newLedger "pool")) =
  [[wX 5]; [wX 15]; []; []; []; []].
Proof. vm_compute. reflexivity. Qed.

Example scenario_removal :
  payouts (run Split (removalOps ++ [OpClaimRewards "a" []]) (newLedger "pool"))
  = [[uX (136 * 10 ^ 17)]; []; []; []; []; []].
Proof. vm_compute. reflexivity. Qed.

(** Under the other reading the same deltas are worth a hundred and two
    hundred times more. *)
Example scenario_claims_per_share :
  payouts
    (run PerShare
       (scenarioOps ++ [OpClaimRewards "a" []; OpClaimRewards "b" []])
       (newLedger "pool")) =
  [[wX 1000]; [wX 2000]; []; []; []; []].
Proof. vm_compute. reflexivity. Qed.

(** ** Settling twice *)

Lemma MulDec_zero (coins : DecCoins) (d : Dec) :
  sorted_denoms coins ->
  (forall denom, AmountOf denom coins = 0) ->
  MulDec coins d = [].
Proof.
  intros Hs Hzero. apply no_zero_coin_all_zero; [apply MulDec_no_zero|].
  intros denom. rewrite MulDec_AmountOf by assumption.
  rewrite Hzero. apply Dec_Mul_0_l.
Qed.








(** * Further properties of the helpers *)

(** ** Canonical coin sets *)

Lemma removeZero_id (coins : DecCoins) :
  no_zero_coin coins -> removeZeroDecCoins coins = coins.
Proof.
  unfold removeZeroDecCoins.
  induction 1 as [|c r Hc _ IH]; [reflexivity|].
  cbn [List.filter]. unfold DecCoin_IsZero at 1.
  rewrite (proj2 (Dec_IsZero_false (Amount c)) Hc). cbn [negb].
  rewrite IH. reflexivity.
Qed.

Lemma Add_nil_r (coins : DecCoins) :
  no_zero_coin coins -> Add coins [] = coins.
Proof.
  intros Hnz. unfold Add. rewrite safeAdd_nil_r. apply removeZero_id, Hnz.
Qed.

Lemma MulDec_zero_r (coins : DecCoins) : MulDec coins 0 = [].
Proof.
  rewrite MulDec_fold. induction coins as [|c r IH]; [reflexivity|].
  cbn [fold_left]. unfold mulStep at 2, DecCoin_IsZero, Dec_IsZero.
  cbn [Amount]. rewrite Dec_Mul_0_r. cbn. exact IH.
Qed.

Lemma getTotalRewards_Ok_inv (accum : AccumulatorObject)
    (position : PositionRecord) (feeGrowthOutside rewards : DecCoins) :
  sorted_denoms (value accum) ->
  sorted_denoms (InitAccumValue position) ->
  sorted_denoms feeGrowthOutside ->
  getTotalRewards accum position feeGrowthOutside = Ok rewards ->
  forall denom,
    AmountOf denom (InitAccumValue position) +
    AmountOf denom feeGrowthOutside <= AmountOf denom (value accum).
Proof.
  intros Hv Hi Hg Hret denom.
  destruct (Z_lt_le_dec (AmountOf denom (value accum))
              (AmountOf denom (InitAccumValue position) +
               AmountOf denom feeGrowthOutside)) as [Hlt|Hle]; [|exact Hle].
  rewrite getTotalRewards_Panic in Hret by eauto. discriminate.
Qed.

(** ** What getTotalRewards returns *)

(** X1.  The growth outside only moves the snapshot: reading a position with
    a growth outside is reading, without growth outside, the position whose
    snapshot is the sum of the two; the two calls return the same set or
    panic alike. *)
Theorem getTotalRewards_growth_moves_snapshot (accum : AccumulatorObject)
    (position : PositionRecord) (feeGrowthOutside : DecCoins) :
  getTotalRewards accum position feeGrowthOutside =
  getTotalRewards accum
    {| NumShares := NumShares position;
       InitAccumValue := Add (InitAccumValue position) feeGrowthOutside;
       UnclaimedRewards := UnclaimedRewards position;
       Options := Options position |}
    NewDecCoins.
Proof.
  unfold getTotalRewards, NewDecCoins.
  cbn [InitAccumValue UnclaimedRewards NumShares].
  rewrite (Add_nil_r (Add (InitAccumValue position) feeGrowthOutside))
    by apply safeAdd_no_zero.
  reflexivity.
Qed.

(** X2.  Whatever its inputs hold, a set returned by [getTotalRewards] has no
    zero coin; it is sorted by denomination when the unclaimed rewards
    are. *)
Theorem getTotalRewards_canonical (accum : AccumulatorObject)
    (position : PositionRecord) (feeGrowthOutside rewards : DecCoins) :
  getTotalRewards accum position feeGrowthOutside = Ok rewards ->
  no_zero_coin rewards /\
  (sorted_denoms (UnclaimedRewards position) -> sorted_denoms rewards).
Proof.
  unfold getTotalRewards. intros Hret.
  destruct (Sub _ _) as [diff|msg]; cbn [bind] in Hret; [|discriminate].
  unfold MulDecOrPanic in Hret.
  destruct (MulDecOverflows diff (NumShares position)); [discriminate|].
  cbn [bind] in Hret. injection Hret as <-. split.
  - apply safeAdd_no_zero.
  - intros Hu. apply safeAdd_sorted; [exact Hu | apply MulDec_sorted].
Qed.

Lemma getTotalRewards_canonical_witness :
  no_zero_coin [uX 500; uY 401] /\
  (sorted_denoms (UnclaimedRewards samplePosition) ->
   sorted_denoms [uX 500; uY 401]).
Proof.
  apply (getTotalRewards_canonical wholeAccum wholePosition [uX 2]).
  vm_compute. reflexivity.
Defined.

(** X3.  A position without shares is owed its unclaimed rewards and nothing
    else, whatever the accumulator has grown by (the precondition on the
    snapshot still has to hold for the subtraction to return). *)
Theorem getTotalRewards_zero_shares (accum : AccumulatorObject)
    (position : PositionRecord) (feeGrowthOutside : DecCoins) :
  sorted_denoms (value accum) ->
  sorted_denoms (InitAccumValue position) ->
  sorted_denoms feeGrowthOutside ->
  (forall denom,
      AmountOf denom (InitAccumValue position) +
      AmountOf denom feeGrowthOutside <= AmountOf denom (value accum)) ->
  NumShares position = 0 ->
  getTotalRewards accum position feeGrowthOutside =
  Ok (removeZeroDecCoins (UnclaimedRewards position)).
Proof.
  intros Hv Hi Hg Hle Hzero.
  rewrite getTotalRewards_Ok; try assumption.
  - rewrite Hzero, MulDec_zero_r. unfold Add. rewrite safeAdd_nil_r.
    reflexivity.
  - intros denom. rewrite Hzero. apply Dec_MulOverflows_0_r.
Qed.

Lemma getTotalRewards_zero_shares_witness :
  getTotalRewards sampleAccum idlePosition [uX 2] = Ok [uY 1].
Proof.
  apply (getTotalRewards_zero_shares sampleAccum idlePosition [uX 2]);
    try sorted_closed; try reflexivity.
  unfold idlePosition. amounts_closed.
Defined.

(** X4.  When the accumulator value is the snapshot plus the growth outside in
    every denomination, nothing has accrued: a position is owed its unclaimed
    rewards, whatever its shares. *)
Theorem getTotalRewards_nothing_accrued (accum : AccumulatorObject)
    (position : PositionRecord) (feeGrowthOutside : DecCoins) :
  sorted_denoms (value accum) ->
  sorted_denoms (InitAccumValue position) ->
  sorted_denoms feeGrowthOutside ->
  (forall denom,
      AmountOf denom (InitAccumValue position) +
      AmountOf denom feeGrowthOutside = AmountOf denom (value accum)) ->
  getTotalRewards accum position feeGrowthOutside =
  Ok (removeZeroDecCoins (UnclaimedRewards position)).
Proof.
  intros Hv Hi Hg Heq.
  rewrite getTotalRewards_Ok; try assumption.
  - rewrite MulDec_zero.
    + unfold Add. rewrite safeAdd_nil_r. reflexivity.
    + apply SafeSub_sorted; [assumption | apply safeAdd_sorted; assumption].
    + intros denom.
      rewrite SafeSub_AmountOf
        by (assumption || apply safeAdd_sorted; assumption).
      unfold Add. rewrite safeAdd_AmountOf by assumption.
      specialize (Heq denom). dec_lia.
  - intros denom. specialize (Heq denom). lia.
  - intros denom. specialize (Heq denom).
    replace (AmountOf denom (value accum) -
             (AmountOf denom (InitAccumValue position) +
              AmountOf denom feeGrowthOutside)) with 0 by lia.
    apply Dec_MulOverflows_0_l.
Qed.

Lemma getTotalRewards_nothing_accrued_witness :
  getTotalRewards sampleAccum settledPosition [] = Ok [uY 1].
Proof.
  apply (getTotalRewards_nothing_accrued sampleAccum settledPosition []);
    try sorted_closed.
  unfold settledPosition. amounts_closed.
Defined.

(** X5.  Rewards grow with the accumulator: a position with non-negative
    shares, read within the range of the decimals against an accumulator
    value and against a component-wise larger one, is owed at least as much
    against the larger in every denomination; rounding keeps the order. *)
Theorem getTotalRewards_monotone (accum accum' : AccumulatorObject)
    (position : PositionRecord) (feeGrowthOutside : DecCoins) :
  sorted_denoms (value accum) ->
  sorted_denoms (value accum') ->
  sorted_denoms (InitAccumValue position) ->
  sorted_denoms feeGrowthOutside ->
  sorted_denoms (UnclaimedRewards position) ->
  (forall denom,
      AmountOf denom (InitAccumValue position) +
      AmountOf denom feeGrowthOutside <= AmountOf denom (value accum)) ->
  (forall denom,
      AmountOf denom (value accum) <= AmountOf denom (value accum')) ->
  0 <= NumShares position ->
  rewardsInRange accum position feeGrowthOutside ->
  rewardsInRange accum' position feeGrowthOutside ->
  exists rewards rewards',
    getTotalRewards accum position feeGrowthOutside = Ok rewards /\
    getTotalRewards accum' position feeGrowthOutside = Ok rewards' /\
    forall denom, AmountOf denom rewards <= AmountOf denom rewards'.
Proof.
  intros Hv Hv' Hi Hg Hu Hle Hgrow Hn Hrange Hrange'.
  assert (Hle' : forall denom,
             AmountOf denom (InitAccumValue position) +
             AmountOf denom feeGrowthOutside <= AmountOf denom (value accum')).
  { intros denom. specialize (Hle denom). specialize (Hgrow denom). lia. }
  eexists. eexists. split; [|split].
  - apply getTotalRewards_Ok; try assumption.
    intros denom. apply (Hrange denom).
  - apply getTotalRewards_Ok; try assumption.
    intros denom. apply (Hrange' denom).
  - intros denom. rewrite !rewards_AmountOf by assumption.
    apply Z.add_le_mono_l. apply Dec_Mul_mono; [|exact Hn].
    specialize (Hgrow denom). lia.
Qed.

Lemma getTotalRewards_monotone_witness :
  exists rewards rewards',
    getTotalRewards wholeAccum wholePosition [uX 2] = Ok rewards /\
    getTotalRewards (withValue wholeAccum [uX 12; uY 4]) wholePosition [uX 2] =
    Ok rewards' /\
    forall denom, AmountOf denom rewards <= AmountOf denom rewards'.
Proof.
  apply (getTotalRewards_monotone wholeAccum
           (withValue wholeAccum [uX 12; uY 4]) wholePosition [uX 2]);
    try sorted_closed.
  - amounts_closed.
  - unfold withValue. amounts_closed.
  - vm_compute. discriminate.
  - range_closed.
  - unfold withValue. range_closed.
Defined.

(** X6.  With non-negative shares, read within the range of the decimals, no
    denomination of the total is below the unclaimed rewards; unclaimed
    rewards without a negative denomination give a total without one. *)
Theorem getTotalRewards_at_least_unclaimed (accum : AccumulatorObject)
    (position : PositionRecord) (feeGrowthOutside : DecCoins) :
  sorted_denoms (value accum) ->
  sorted_denoms (InitAccumValue position) ->
  sorted_denoms feeGrowthOutside ->
  sorted_denoms (UnclaimedRewards position) ->
  (forall denom,
      AmountOf denom (InitAccumValue position) +
      AmountOf denom feeGrowthOutside <= AmountOf denom (value accum)) ->
  0 <= NumShares position ->
  rewardsInRange accum position feeGrowthOutside ->
  exists rewards,
    getTotalRewards accum position feeGrowthOutside = Ok rewards /\
    (forall denom,
        AmountOf denom (UnclaimedRewards position) <= AmountOf denom rewards) /\
    (IsAnyNegative (UnclaimedRewards position) = false ->
     IsAnyNegative rewards = false).
Proof.
  intros Hv Hi Hg Hu Hle Hn Hrange.
  assert (Hge : forall denom,
             AmountOf denom (UnclaimedRewards position) <=
             AmountOf denom
               (Add (UnclaimedRewards position)
                  (MulDec
                     (fst (SafeSub (value accum)
                             (Add (InitAccumValue position) feeGrowthOutside)))
                     (NumShares position)))).
  { intros denom. rewrite rewards_AmountOf by assumption.
    specialize (Hle denom).
    pose proof (Dec_Mul_nonneg
                  (AmountOf denom (value accum) -
                   (AmountOf denom (InitAccumValue position) +
                    AmountOf denom feeGrowthOutside))
                  (NumShares position) ltac:(lia) Hn).
    lia. }
  eexists. split.
  { apply getTotalRewards_Ok; try assumption.
    intros denom. apply (Hrange denom). }
  split; [exact Hge|].
  intros Hpos. apply IsAnyNegative_false; [apply rewards_sorted; assumption|].
  intros denom. specialize (Hge denom).
  pose proof (proj1 (IsAnyNegative_false _ Hu) Hpos denom). lia.
Qed.

Lemma getTotalRewards_at_least_unclaimed_witness :
  exists rewards,
    getTotalRewards wholeAccum wholePosition [uX 2] = Ok rewards /\
    (forall denom, AmountOf denom [uY 1] <= AmountOf denom rewards) /\
    (IsAnyNegative [uY 1] = false -> IsAnyNegative rewards = false).
Proof.
  apply (getTotalRewards_at_least_unclaimed wholeAccum wholePosition
           [uX 2]); try sorted_closed.
  - amounts_closed.
  - vm_compute. discriminate.
  - range_closed.
Defined.

(** ** Replacement values that validate *)

Lemma validateAccumulatorValue_None (custom old : DecCoins) :
  sorted_denoms custom -> sorted_denoms old ->
  validateAccumulatorValue custom old = None <->
  (forall denom, 0 <= AmountOf denom custom) /\ coins_le old custom.
Proof.
  intros Hc Ho.
  rewrite <- (IsAnyNegative_false custom Hc).
  rewrite <- (SafeSub_not_negative custom old Hc Ho).
  split.
  - intros Hnil. destruct (IsAnyNegative custom) eqn:E1.
    { rewrite validateAccumulatorValue_negative_custom in Hnil by assumption.
      discriminate. }
    destruct (snd (SafeSub custom old)) eqn:E2; [|auto].
    rewrite validateAccumulatorValue_negative_difference in Hnil by assumption.
    discriminate.
  - intros [H1 H2]. apply validateAccumulatorValue_success; assumption.
Qed.

(** X7.  Growth validates: an accumulator value without a negative
    denomination, increased by a delta without one, is a valid replacement of
    itself. *)
Theorem validateAccumulatorValue_after_Add (old delta : DecCoins) :
  sorted_denoms old -> sorted_denoms delta ->
  IsAnyNegative old = false ->
  IsAnyNegative delta = false ->
  validateAccumulatorValue (Add old delta) old = None.
Proof.
  intros Ho Hd Hold Hdelta.
  pose proof (proj1 (IsAnyNegative_false old Ho) Hold) as Hold'.
  pose proof (proj1 (IsAnyNegative_false delta Hd) Hdelta) as Hdelta'.
  apply validateAccumulatorValue_None;
    [apply safeAdd_sorted; assumption | assumption |].
  split; intros denom; unfold Add; rewrite safeAdd_AmountOf by assumption;
    specialize (Hold' denom); specialize (Hdelta' denom); lia.
Qed.

Lemma validateAccumulatorValue_after_Add_witness :
  validateAccumulatorValue (Add [uX 10; uY 4] [uX 2]) [uX 10; uY 4] = None.
Proof.
  apply (validateAccumulatorValue_after_Add [uX 10; uY 4] [uX 2]);
    try sorted_closed; reflexivity.
Defined.

(** X8.  Validation is a preorder on values without a negative denomination:
    every such value is a valid replacement of itself, and a valid
    replacement of a valid replacement of a value is a valid replacement of
    that value. *)
Theorem validateAccumulatorValue_preorder :
  (forall v : DecCoins,
      sorted_denoms v -> IsAnyNegative v = false ->
      validateAccumulatorValue v v = None) /\
  (forall a b c : DecCoins,
      sorted_denoms a -> sorted_denoms b -> sorted_denoms c ->
      validateAccumulatorValue b a = None ->
      validateAccumulatorValue c b = None ->
      validateAccumulatorValue c a = None).
Proof.
  split.
  - intros v Hv Hpos. apply validateAccumulatorValue_None; [assumption..|].
    split; [apply IsAnyNegative_false; assumption | intros denom; lia].
  - intros a b c Ha Hb Hc Hba Hcb.
    apply validateAccumulatorValue_None in Hba as [_ Hab]; [|assumption..].
    apply validateAccumulatorValue_None in Hcb as [Hpos Hbc]; [|assumption..].
    apply validateAccumulatorValue_None; [assumption..|].
    split; [exact Hpos|]. intros denom.
    specialize (Hab denom). specialize (Hbc denom). lia.
Qed.

Lemma validateAccumulatorValue_preorder_witness :
  validateAccumulatorValue [uX 10; uY 4] [uX 10; uY 4] = None /\
  validateAccumulatorValue [uX 12; uY 4] [uX 3] = None.
Proof.
  destruct validateAccumulatorValue_preorder as [Hrefl Htrans]. split.
  - apply Hrefl; [sorted_closed | reflexivity].
  - apply (Htrans [uX 3] [uX 10; uY 4] [uX 12; uY 4]);
      try sorted_closed; reflexivity.
Defined.

(** X9.  A replacement value that validates strands no position: a
    position that [getTotalRewards] could read against the old value, with
    any growth outside, does not make the subtraction panic against the
    replacement, and is read against it when the decimals formed are within
    range. *)
Theorem validateAccumulatorValue_keeps_positions_readable
    (accum accum' : AccumulatorObject) (position : PositionRecord)
    (feeGrowthOutside rewards : DecCoins) :
  sorted_denoms (value accum) ->
  sorted_denoms (value accum') ->
  sorted_denoms (InitAccumValue position) ->
  sorted_denoms feeGrowthOutside ->
  validateAccumulatorValue (value accum') (value accum) = None ->
  getTotalRewards accum position feeGrowthOutside = Ok rewards ->
  getTotalRewards accum' position feeGrowthOutside <>
  Panic "negative coin amount" /\
  (rewardsInRange accum' position feeGrowthOutside ->
   exists rewards',
     getTotalRewards accum' position feeGrowthOutside = Ok rewards').
Proof.
  intros Hv Hv' Hi Hg Hvalid Hret.
  apply validateAccumulatorValue_None in Hvalid as [_ Hle]; [|assumption..].
  pose proof (getTotalRewards_Ok_inv _ _ _ _ Hv Hi Hg Hret) as Hpre.
  assert (Hpre' : forall denom,
             AmountOf denom (InitAccumValue position) +
             AmountOf denom feeGrowthOutside <= AmountOf denom (value accum')).
  { intros denom. specialize (Hpre denom). specialize (Hle denom). lia. }
  split.
  - destruct (getTotalRewards_cases accum' position feeGrowthOutside Hv' Hi Hg)
      as [((denom & Hlt) & _)|[(_ & _ & Hp)|(_ & _ & Hok)]].
    + specialize (Hpre' denom). lia.
    + rewrite Hp. discriminate.
    + rewrite Hok. discriminate.
  - intros Hrange. eexists. apply getTotalRewards_Ok; try assumption.
    intros denom. apply (Hrange denom).
Qed.

Lemma validateAccumulatorValue_keeps_positions_readable_witness :
  getTotalRewards grownAccum samplePosition [uX 2] <>
  Panic "negative coin amount" /\
  exists rewards',
    getTotalRewards grownAccum samplePosition [uX 2] = Ok rewards'.
Proof.
  destruct (validateAccumulatorValue_keeps_positions_readable sampleAccum
              grownAccum samplePosition [uX 2] [uY 1])
    as [Hsub Hread]; try sorted_closed; try (vm_compute; reflexivity).
  split; [exact Hsub|]. apply Hread.
  unfold grownAccum, withValue. range_closed.
Defined.

(** X10.  A replacement value rejected with [NegativeAccDifferenceError] would
    strand the positions snapshotted at the old value: read against the
    replacement, such a position makes [getTotalRewards] panic. *)
Theorem validateAccumulatorValue_rejects_stranding
    (accum' : AccumulatorObject) (position : PositionRecord)
    (deficit : DecCoins) :
  sorted_denoms (value accum') ->
  sorted_denoms (InitAccumValue position) ->
  validateAccumulatorValue (value accum') (InitAccumValue position) =
  Some (NegativeAccDifferenceError deficit) ->
  getTotalRewards accum' position NewDecCoins = Panic "negative coin amount".
Proof.
  intros Hv Hi Hrej.
  destruct (coins_le_dec (InitAccumValue position) (value accum') Hi Hv)
    as [Hle|(denom & Hlt)].
  - exfalso. unfold validateAccumulatorValue in Hrej.
    destruct (IsAnyNegative (value accum')); [discriminate|].
    rewrite (surjective_pairing (SafeSub _ _)) in Hrej.
    rewrite (proj2 (SafeSub_not_negative _ _ Hv Hi) Hle) in Hrej.
    discriminate.
  - apply getTotalRewards_Panic; [assumption | assumption | exact I |].
    exists denom. cbn [AmountOf NewDecCoins]. unfold ZeroDec. lia.
Qed.

Lemma validateAccumulatorValue_rejects_stranding_witness :
  getTotalRewards (withValue sampleAccum [uX 1; uY 5]) settledPosition
    NewDecCoins = Panic "negative coin amount".
Proof.
  apply (validateAccumulatorValue_rejects_stranding
           (withValue sampleAccum [uX 1; uY 5]) settledPosition
           [uX 9; uY (-1)]); first [sorted_closed | vm_compute; reflexivity].
Defined.

(** ** Writing position records *)

(** X11.  The last write wins: a record written over another under the same
    index leaves the store as if the first write had not happened. *)
Theorem initOrUpdatePosition_overrides (accum : AccumulatorObject)
    (index : string) (value1 value2 : DecCoins) (shares1 shares2 : Dec)
    (unclaimed1 unclaimed2 : DecCoins)
    (options1 options2 : option accum_Options) :
  initOrUpdatePosition
    (initOrUpdatePosition accum value1 index shares1 unclaimed1 options1)
    value2 index shares2 unclaimed2 options2 =
  initOrUpdatePosition accum value2 index shares2 unclaimed2 options2.
Proof.
  unfold initOrUpdatePosition, withStore, osmoutils.MustSet.
  cbn [store name value totalShares]. rewrite insert_insert_eq. reflexivity.
Qed.

(** X12.  Writes under different indexes do not interfere: they give the same
    accumulator in either order. *)
Theorem initOrUpdatePosition_commutes (accum : AccumulatorObject)
    (index1 index2 : string) (value1 value2 : DecCoins) (shares1 shares2 : Dec)
    (unclaimed1 unclaimed2 : DecCoins)
    (options1 options2 : option accum_Options) :
  index1 <> index2 ->
  initOrUpdatePosition
    (initOrUpdatePosition accum value1 index1 shares1 unclaimed1 options1)
    value2 index2 shares2 unclaimed2 options2 =
  initOrUpdatePosition
    (initOrUpdatePosition accum value2 index2 shares2 unclaimed2 options2)
    value1 index1 shares1 unclaimed1 options1.
Proof.
  intros Hne. unfold initOrUpdatePosition, withStore, osmoutils.MustSet.
  cbn [store name value totalShares]. f_equal.
  apply insert_insert_ne. unfold formatPositionPrefixKey. congruence.
Qed.

Lemma initOrUpdatePosition_commutes_witness :
  initOrUpdatePosition
    (initOrUpdatePosition sampleAccum [uX 10] "b" 5 [] None)
    [uX 10; uY 4] "c" 7 [uY 1] None =
  initOrUpdatePosition
    (initOrUpdatePosition sampleAccum [uX 10; uY 4] "c" 7 [uY 1] None)
    [uX 10] "b" 5 [] None.
Proof.
  apply (initOrUpdatePosition_commutes sampleAccum "b" "c"). discriminate.
Defined.

(** X13.  Writing back what was read changes nothing: when [getPosition]
    returns a record without error, [initOrUpdatePosition] called with the
    fields of that record under the same index leaves the accumulator and its
    store as they are. *)
Theorem initOrUpdatePosition_writes_back (accum : AccumulatorObject)
    (index : string) (position : PositionRecord) :
  fst (getPosition accum index) = (position, None) ->
  initOrUpdatePosition accum (InitAccumValue position) index
    (NumShares position) (UnclaimedRewards position) (Options position) =
  accum.
Proof.
  rewrite getPosition_lookup. intros Hget.
  destruct (store accum !! formatPositionPrefixKey (name accum) index)
    as [stored|] eqn:Hlk; cbn [fst] in Hget; [|discriminate].
  injection Hget as ->.
  unfold initOrUpdatePosition, withStore, osmoutils.MustSet.
  destruct position as [n i u o]. cbn [NumShares InitAccumValue
    UnclaimedRewards Options].
  rewrite insert_id by exact Hlk. destruct accum; reflexivity.
Qed.

Lemma initOrUpdatePosition_writes_back_witness :
  initOrUpdatePosition sampleAccum [uX 3] "a" 100 [uY 1] None = sampleAccum.
Proof.
  apply (initOrUpdatePosition_writes_back sampleAccum "a" samplePosition).
  reflexivity.
Defined.

(** * The proposal handler of the gamm keeper *)

Example HandleCreatingCLPool_sample :
  gamm.HandleCreatingCLPoolAndLinkToCFMMProposal gamm.sampleKeeper []
    (gamm.mkProposal [gamm.sampleRecord "uosmo" 1; gamm.sampleRecord "uatom" 1])
  = (None, [gamm.mkBalancerToConcentratedPoolLink 1 10;
            gamm.mkBalancerToConcentratedPoolLink 1 11]).
Proof. reflexivity. Qed.

Lemma denomStep_found (denom0 : string) (poolLiquidity : list gamm.Coin)
    (st : bool * string) :
  fst (fold_left (gamm.denomStep denom0) poolLiquidity st) =
  fst st || existsb (fun coin => String.eqb (gamm.Denom coin) denom0)
              poolLiquidity.
Proof.
  revert st. induction poolLiquidity as [|coin rest IH]; intros [found denom1].
  - cbn. rewrite orb_false_r. reflexivity.
  - cbn [fold_left existsb]. rewrite IH. unfold gamm.denomStep.
    destruct (String.eqb (gamm.Denom coin) denom0); cbn [fst orb].
    + rewrite orb_true_r. reflexivity.
    + reflexivity.
Qed.

(** X14.  The concentrated pool is created on the two denominations of the
    balancer pool, the desired one first: when the liquidity of the balancer
    pool holds two different denominations, the handler goes on to create
    the pool with [Denom0] and, as second denomination, the other one of the
    two, wherever [Denom0] stands in the liquidity. *)
Theorem handleRecords_pairs_other_denom (k : gamm.Keeper)
    (poolCreatorAddress : gamm.Address k)
    (record : gamm.PoolRecordWithCFMMLink)
    (rest : list gamm.PoolRecordWithCFMMLink) (ctx : gamm.Context k)
    (cfmmPool : gamm.CFMMPool k) (coin0 coin1 : gamm.Coin) :
  gamm.GetCFMMPool k ctx (gamm.BalancerPoolId record) = inl cfmmPool ->
  gamm.GetTotalPoolLiquidity k cfmmPool ctx = [coin0; coin1] ->
  gamm.Denom coin0 <> gamm.Denom coin1 ->
  (gamm.Denom0 record = gamm.Denom coin0 ->
   gamm.handleRecords k poolCreatorAddress (record :: rest) ctx =
   gamm.createAndLink k poolCreatorAddress record (gamm.Denom coin1)
     (gamm.handleRecords k poolCreatorAddress rest) ctx) /\
  (gamm.Denom0 record = gamm.Denom coin1 ->
   gamm.handleRecords k poolCreatorAddress (record :: rest) ctx =
   gamm.createAndLink k poolCreatorAddress record (gamm.Denom coin0)
     (gamm.handleRecords k poolCreatorAddress rest) ctx).
Proof.
  intros Hpool Hliq Hne.
  split; intros Hd; cbn [gamm.handleRecords]; rewrite Hpool, Hliq;
    cbn [length Nat.eqb negb fold_left]; unfold gamm.denomStep; rewrite Hd.
  - rewrite String.eqb_refl.
    rewrite (proj2 (String.eqb_neq _ _)) by congruence. reflexivity.
  - rewrite (proj2 (String.eqb_neq _ _)) by congruence.
    rewrite String.eqb_refl. reflexivity.
Qed.

Lemma handleRecords_pairs_other_denom_witness :
  gamm.handleRecords gamm.sampleKeeper "poolmanager"
    [gamm.sampleRecord "uosmo" 1] [] =
  gamm.createAndLink gamm.sampleKeeper "poolmanager"
    (gamm.sampleRecord "uosmo" 1) "uatom"
    (gamm.handleRecords gamm.sampleKeeper "poolmanager" []) [].
Proof.
  apply (handleRecords_pairs_other_denom gamm.sampleKeeper "poolmanager"%string
           (gamm.sampleRecord "uosmo" 1) [] []
           [gamm.mkCoin "uatom" 5; gamm.mkCoin "uosmo" 10]
           (gamm.mkCoin "uatom" 5) (gamm.mkCoin "uosmo" 10));
    try reflexivity.
  discriminate.
Defined.

(** X15.  A record is rejected before anything is created or linked: when the
    balancer pool is not found, when its liquidity does not hold exactly two
    denominations, or when none of them is [Denom0], the handler returns the
    error with the chain state as it was and leaves the later records
    alone. *)
Theorem handleRecords_rejects (k : gamm.Keeper)
    (poolCreatorAddress : gamm.Address k)
    (record : gamm.PoolRecordWithCFMMLink)
    (rest : list gamm.PoolRecordWithCFMMLink) (ctx : gamm.Context k) :
  (forall err,
      gamm.GetCFMMPool k ctx (gamm.BalancerPoolId record) = inr err ->
      gamm.handleRecords k poolCreatorAddress (record :: rest) ctx =
      (Some err, ctx)) /\
  (forall cfmmPool,
      gamm.GetCFMMPool k ctx (gamm.BalancerPoolId record) = inl cfmmPool ->
      length (gamm.GetTotalPoolLiquidity k cfmmPool ctx) <> 2%nat ->
      gamm.handleRecords k poolCreatorAddress (record :: rest) ctx =
      (Some "can only have 2 denoms in CL pool"%string, ctx)) /\
  (forall cfmmPool,
      gamm.GetCFMMPool k ctx (gamm.BalancerPoolId record) = inl cfmmPool ->
      length (gamm.GetTotalPoolLiquidity k cfmmPool ctx) = 2%nat ->
      (forall coin,
          In coin (gamm.GetTotalPoolLiquidity k cfmmPool ctx) ->
          gamm.Denom coin <> gamm.Denom0 record) ->
      gamm.handleRecords k poolCreatorAddress (record :: rest) ctx =
      (Some ("desired denom (" ++ gamm.Denom0 record ++
             ") was not found in the pool")%string, ctx)).
Proof.
  split; [|split].
  - intros err Hpool. cbn [gamm.handleRecords]. rewrite Hpool. reflexivity.
  - intros cfmmPool Hpool Hlen. cbn [gamm.handleRecords]. rewrite Hpool.
    rewrite (proj2 (Nat.eqb_neq _ _) Hlen). reflexivity.
  - intros cfmmPool Hpool Hlen Hnone. cbn [gamm.handleRecords]. rewrite Hpool.
    rewrite Hlen. cbn [Nat.eqb negb].
    pose proof (denomStep_found (gamm.Denom0 record)
                  (gamm.GetTotalPoolLiquidity k cfmmPool ctx)
                  (false, ""%string)) as Hfound.
    destruct (fold_left _ _ _) as [foundDenom0 denom1]. cbn [fst orb] in Hfound.
    assert (Hex : existsb
                    (fun coin =>
                       String.eqb (gamm.Denom coin) (gamm.Denom0 record))
                    (gamm.GetTotalPoolLiquidity k cfmmPool ctx) = false).
    { destruct (existsb _ _) eqn:E; [|reflexivity].
      apply existsb_exists in E as (coin & Hin & Heq).
      apply String.eqb_eq in Heq. exfalso. exact (Hnone coin Hin Heq). }
    rewrite Hex in Hfound. subst foundDenom0. reflexivity.
Qed.

Lemma handleRecords_rejects_witness :
  gamm.handleRecords gamm.sampleKeeper "poolmanager"
    [gamm.sampleRecord "uosmo" 3; gamm.sampleRecord "uosmo" 1] [] =
  (Some "pool not found"%string, []) /\
  gamm.handleRecords gamm.sampleKeeper "poolmanager"
    [gamm.sampleRecord "uosmo" 2; gamm.sampleRecord "uosmo" 1] [] =
  (Some "can only have 2 denoms in CL pool"%string, []) /\
  gamm.handleRecords gamm.sampleKeeper "poolmanager"
    [gamm.sampleRecord "uion" 1; gamm.sampleRecord "uosmo" 1] [] =
  (Some "desired denom (uion) was not found in the pool"%string, []).
Proof.
  split; [|split].
  - apply (handleRecords_rejects gamm.sampleKeeper "poolmanager"%string
             (gamm.sampleRecord "uosmo" 3)). reflexivity.
  - apply (proj1 (proj2 (handleRecords_rejects gamm.sampleKeeper
                           "poolmanager"%string (gamm.sampleRecord "uosmo" 2)
                           [gamm.sampleRecord "uosmo" 1] [])) _ eq_refl).
    cbn. discriminate.
  - apply (proj2 (proj2 (handleRecords_rejects gamm.sampleKeeper
                           "poolmanager"%string (gamm.sampleRecord "uion" 1)
                           [gamm.sampleRecord "uosmo" 1] [])) _ eq_refl).
    + reflexivity.
    + cbn. intros coin [<-|[<-|[]]]; cbn; discriminate.
Defined.

(** X16.  Records are handled in order and the first failure stops the
    proposal: handling two lists of records one after the other is handling
    the first and, only if it raised no error, the second from the state the
    first left; the pools of the records before a failing one stay created
    and linked in the returned state. *)
Theorem handleRecords_app (k : gamm.Keeper)
    (poolCreatorAddress : gamm.Address k)
    (records1 records2 : list gamm.PoolRecordWithCFMMLink)
    (ctx : gamm.Context k) :
  gamm.handleRecords k poolCreatorAddress (records1 ++ records2) ctx =
  match gamm.handleRecords k poolCreatorAddress records1 ctx with
  | (Some err, ctx1) => (Some err, ctx1)
  | (None, ctx1) => gamm.handleRecords k poolCreatorAddress records2 ctx1
  end.
Proof.
  revert ctx. induction records1 as [|record rest IH]; intros ctx.
  - reflexivity.
  - cbn [app gamm.handleRecords].
    destruct (gamm.GetCFMMPool k ctx (gamm.BalancerPoolId record))
      as [cfmmPool|err]; [|reflexivity].
    destruct (negb _); [reflexivity|].
    destruct (fold_left _ _ _) as [foundDenom0 denom1].
    destruct (negb foundDenom0); [reflexivity|].
    unfold gamm.createAndLink.
    destruct (gamm.CreateConcentratedPoolAsPoolManager k ctx _)
      as [[concentratedPool|err] ctx1]; [|reflexivity].
    destruct (gamm.OverwriteMigrationRecordsAndRedirectDistrRecords k ctx1 _)
      as [[err|] ctx2]; [reflexivity|].
    apply IH.
Qed.
